(** * audioviz: the audio analysis and visual-mapping pipeline

    A shallow embedding of the numeric core of the visualizers
    (bar, waveform, particle and geometric mappings), of the transport
    and analyser accessors of [AudioService], and of the settings store
    of [VisualizationContext], followed by the properties proved of them.

    Number model.  JavaScript numbers are IEEE doubles.  Finite values are
    idealised as exact rationals ([Q]) wherever the source only adds,
    multiplies, divides, compares or floors, so that those definitions
    evaluate; the two places that call [Math.log10] / [Math.pow] are
    idealised over the reals ([R]).  [NaN] is modelled explicitly where
    the source can produce it from finite inputs (a [0 / 0]).

    Beat detection compares a computed mean with a threshold, and there
    the last bit decides: its sum and quotient are rounded to the nearest
    double after every operation ([JS.double]).  The exponent range of
    the format is left out: the entries of a [Float32Array] are
    single-precision numbers, and sums of ten of them and their quotient
    by ten stay far inside the range of doubles. *)

From Stdlib Require Import ZArith QArith Qround Qminmax Qabs Qpower Reals Lra Lqa.
From stdpp Require Import gmap strings list fin_maps pretty.

(** Linear arithmetic over the reals and over the rationals. *)
Ltac rlra := Lra.lra.
Ltac qlra := Lqa.lra.

(** ** JavaScript helpers *)

Module JS.

(** Completion of a call: it returns a value or it throws. *)
Inductive result (A : Type) : Type :=
| Returned (a : A)
| Thrown.
Arguments Returned {A} a.
Arguments Thrown {A}.

(** A method that reads and updates an object of type [S] and may throw.
    The state reached before a throw is kept: a [catch] does not roll
    assignments back. *)
Definition Eff (S A : Type) : Type := S → S * result A.

Definition ret {S A} (a : A) : Eff S A := λ s, (s, Returned a).

Definition bind {S A B} (m : Eff S A) (k : A → Eff S B) : Eff S B :=
  λ s, match m s with
       | (s', Returned a) => k a s'
       | (s', Thrown) => (s', Thrown)
       end.

(** [try { body } catch (error) { handler }] *)
Definition try_catch {S A} (body handler : Eff S A) : Eff S A :=
  λ s, match body s with
       | (s', Returned a) => (s', Returned a)
       | (s', Thrown) => handler s'
       end.

Definition throws {A} (r : result A) : bool :=
  match r with
  | Returned _ => false
  | Thrown => true
  end.

(** [a > b] and the falsiness of a finite number. *)
Definition gt (a b : Q) : bool := negb (Qle_bool a b).
Definition is_zero (a : Q) : bool := Qeq_bool a 0.

(** [x || d] on a possibly missing number: [undefined], [null] and [0]
    are falsy. *)
Definition or_default (x : option Q) (d : Q) : Q :=
  match x with
  | Some v => if is_zero v then d else v
  | None => d
  end.

(** [x ?? d]: only [undefined] and [null] are replaced. *)
Definition nullish (x : option Q) (d : Q) : Q :=
  match x with
  | Some v => v
  | None => d
  end.

(** [Math.log10] and [Math.pow(10, _)] over the reals. *)
Definition log10 (x : R) : R := (ln x / ln 10)%R.
Definition pow10 (x : R) : R := Rpower 10 x.

(** Rounding to the nearest integer, a tie going to the even one. *)
Definition roundEven (q : Q) : Z :=
  let below := Qfloor q in
  match (q - inject_Z below ?= 1 # 2)%Q with
  | Lt => below
  | Gt => (below + 1)%Z
  | Eq => if Z.even below then below else (below + 1)%Z
  end.

(** The exponent [e] of the unit in the last place of a positive number
    [a]: the one with [2^52 <= a / 2^e < 2^53]. *)
Definition ulpExponent (a : Q) : Z :=
  let e := (Z.log2 (Qnum a) - Z.log2 (Zpos (Qden a)) - 53)%Z in
  if Qle_bool (2 ^ (e + 53)) a then (e + 1)%Z else e.

(** The double nearest to [q]: a significand of 53 bits, round to
    nearest, ties to even.  The exponent is not bounded: overflow to
    [Infinity] and the subnormal numbers are not modelled. *)
Definition double (q : Q) : Q :=
  let a := Qabs q in
  let ulp := (2 ^ ulpExponent a)%Q in
  Qred (inject_Z (Z.sgn (Qnum q)) * (inject_Z (roundEven (a / ulp)) * ulp)).

(** [a + b] and [a / b] on doubles. *)
Definition add (a b : Q) : Q := double (a + b).
Definition div (a b : Q) : Q := double (a / b).

(** [a % b] on numbers: the remainder has the sign of [a]. *)
Definition remainder (a b : Q) : Q :=
  let quotient := (a / b)%Q in
  a - b * inject_Z (Z.quot (Qnum quotient) (Zpos (Qden quotient))).

End JS.

Notation "'let!' x ':=' m 'in' k" := (JS.bind m (λ x, k))
  (at level 10, x name, m at level 100, k at level 200, only parsing).

(** ** components/visualizers/2d/BarVisualizer *)

Module BarVisualizer.

(** [Math.max(4, Math.min(settings.numFrequencyBands || 8, 12))] *)
Definition numBands (numFrequencyBands : option Z) : Z :=
  let requested :=
    match numFrequencyBands with
    | Some n => if (n =? 0)%Z then 8%Z else n
    | None => 8%Z
    end in
  Z.max 4 (Z.min requested 12).

Definition minFreq : R := 20%R.
Definition maxFreq : R := 20000%R.
Definition nyquist : R := 22050%R.
Definition logMin : R := JS.log10 minFreq.
Definition logMax : R := JS.log10 maxFreq.
Definition logRange : R := (logMax - logMin)%R.

(** Body of the [freqBins] loop at index [i]. *)
Definition logFreq (numBands : Z) (i : nat) : R :=
  (logMin + (INR i / IZR numBands) * logRange)%R.

Definition freq (numBands : Z) (i : nat) : R :=
  JS.pow10 (logFreq numBands i).

Definition binIndex (numBands : Z) (fftSize : nat) (i : nat) : Z :=
  Zfloor ((freq numBands i / nyquist) * (INR fftSize / 2))%R.

(** [for (let i = 0; i < numBands; i++) freqBins.push(Math.min(binIndex, fftSize - 1))] *)
Definition freqBins (numBands : Z) (fftSize : nat) : list Z :=
  map (λ i, Z.min (binIndex numBands fftSize i) (Z.of_nat fftSize - 1))
      (seq 0 (Z.to_nat numBands)).

(** [(frequencyData[dataIndex] + 100) / 100] *)
Definition normalizedValue (db : Q) : Q := (db + 100) / 100.

(** [Math.floor((i / numBands) * colors.length)] *)
Definition colorIndex (i : nat) (numBands : Z) (colors : list string) : Z :=
  Qfloor ((inject_Z (Z.of_nat i) / inject_Z numBands)
          * inject_Z (Z.of_nat (length colors))).

(** The index read in [colors[colorIndex % colors.length]].  The [%] of
    JavaScript truncates towards zero; over an empty scheme it is [NaN]
    ([None]). *)
Definition colorSlot (i : nat) (numBands : Z) (colors : list string) : option Z :=
  match colors with
  | [] => None
  | _ => Some (Z.rem (colorIndex i numBands colors) (Z.of_nat (length colors)))
  end.

(** The settings the drawing loop reads. *)
Record Settings : Type := {
  numFrequencyBands : option Z;
  barWidth : Q;
  barSpacing : Q;
  sensitivity : option Q
}.

(** [(sensitivity ?? 50) / 100] *)
Definition sensitivityScale (sensitivity : option Q) : Q :=
  JS.nullish sensitivity 50 / 100.

(** [numBands * barWidth + (numBands - 1) * barSpacing] *)
Definition totalWidth (numBands : Z) (barWidth barSpacing : Q) : Q :=
  inject_Z numBands * barWidth + (inject_Z numBands - 1) * barSpacing.

(** [(width - totalWidth) / 2] *)
Definition xOffset (width : Q) (numBands : Z) (barWidth barSpacing : Q) : Q :=
  (width - totalWidth numBands barWidth barSpacing) / 2.

(** [Math.max(2, normalizedValue * height * sensitivityScale)] *)
Definition barHeight (db height : Q) (sensitivity : option Q) : Q :=
  Qmax 2 (normalizedValue db * height * sensitivityScale sensitivity).

(** The arguments of one [ctx.fillRect(x, y, barWidth, barHeight)]. *)
Record Rect : Type := {
  rect_x : Q;
  rect_y : Q;
  rect_width : Q;
  rect_height : Q
}.

(** Body of the drawing loop for bar [i], whose bin reads [db]. *)
Definition bar (width height : Q) (settings : Settings) (i : nat) (db : Q) : Rect :=
  let numBands := numBands (numFrequencyBands settings) in
  let barHeight := barHeight db height (sensitivity settings) in
  {| rect_x := xOffset width numBands (barWidth settings) (barSpacing settings)
               + inject_Z (Z.of_nat i) * (barWidth settings + barSpacing settings);
     rect_y := height - barHeight;
     rect_width := barWidth settings;
     rect_height := barHeight |}.

(** [frequencyData[dataIndex]], [undefined] outside the buffer. *)
Definition dataAt (frequencyData : list Q) (dataIndex : Z) : option Q :=
  match dataIndex with
  | Z.neg _ => None
  | _ => frequencyData !! Z.to_nat dataIndex
  end.

(** The rectangles filled by one [draw], in order; [None] stands for a
    bar whose bin is missing from the buffer (a [NaN] height). *)
Definition drawBars (width height : Q) (settings : Settings)
    (frequencyData : list Q) : list (option Rect) :=
  imap (λ i dataIndex, bar width height settings i <$> dataAt frequencyData dataIndex)
       (freqBins (numBands (numFrequencyBands settings)) (length frequencyData)).

End BarVisualizer.

(** ** components/visualizers/3d/ParticleVisualizer *)

Module ParticleVisualizer.

(** [Math.floor((i / (positions.length / 3)) * frequencyData.length)] *)
Definition frequencyIndex (i particleCount : nat) (frequencyData : list Q) : Z :=
  Qfloor ((inject_Z (Z.of_nat i) / inject_Z (Z.of_nat particleCount))
          * inject_Z (Z.of_nat (length frequencyData))).

(** [((frequencyData[frequencyIndex] || -80) + 100) / 100] *)
Definition audioValue (entry : option Q) : Q :=
  (JS.or_default entry (-80) + 100) / 100.

(** The value computed for particle [i] of [particleCount]. *)
Definition audioValueAt (i particleCount : nat) (frequencyData : list Q) : Q :=
  match frequencyIndex i particleCount frequencyData with
  | Z.neg _ => audioValue None
  | index => audioValue (frequencyData !! Z.to_nat index)
  end.

(** [Math.floor(audioValue * schemeColors.length)] *)
Definition colorIndex (audioValue : Q) (schemeColors : list string) : Z :=
  Qfloor (audioValue * inject_Z (Z.of_nat (length schemeColors))).

(** The index read in [schemeColors[Math.min(colorIndex, schemeColors.length - 1)]]. *)
Definition colorSlot (audioValue : Q) (schemeColors : list string) : Z :=
  Z.min (colorIndex audioValue schemeColors) (Z.of_nat (length schemeColors) - 1).

(** [isBeat ? 1.2 : 1.0] *)
Definition beatScale (isBeat : bool) : Q := if isBeat then 12 # 10 else 1.

(** [1.0 + audioValue * sensitivity * beatScale] *)
Definition scale (audioValue sensitivity : Q) (isBeat : bool) : Q :=
  1 + audioValue * sensitivity * beatScale isBeat.

(** [Math.sqrt(x * x + y * y + z * z)] *)
Definition distance (x y z : R) : R := sqrt (x * x + y * y + z * z).

(** The new position of a particle:
    [nx * distance * scale] with [nx = x / distance], likewise for [y]
    and [z].  At the origin the direction is [0 / 0]: [None] stands for
    the three [NaN] written back. *)
Definition displace (scale : R) (position : R * R * R) : option (R * R * R) :=
  let '(x, y, z) := position in
  let distance := distance x y z in
  if Req_dec_T distance 0 then None
  else Some ((x / distance * distance * scale)%R,
             (y / distance * distance * scale)%R,
             (z / distance * distance * scale)%R).

End ParticleVisualizer.

(** ** components/visualizers/3d/GeometricVisualizer *)

Module GeometricVisualizer.

(** One term of the band sum: [((frequencyData[j] || -80) + 100) / 100]. *)
Definition normalized (entry : option Q) : Q :=
  (JS.or_default entry (-80) + 100) / 100.

(** [Math.floor(average * colors.length)] *)
Definition colorIndex (average : Q) (colors : list string) : Z :=
  Qfloor (average * inject_Z (Z.of_nat (length colors))).

(** The index read in [colors[Math.min(colorIndex, colors.length - 1)]]. *)
Definition colorSlot (average : Q) (colors : list string) : Z :=
  Z.min (colorIndex average colors) (Z.of_nat (length colors) - 1).

(** The five meshes built at mount. *)
Definition shapeCount : nat := 5.

(** [Math.floor(frequencyData.length / geometriesRef.current.length)] *)
Definition bandSize (frequencyData : list Q) : nat :=
  Z.to_nat (Qfloor (inject_Z (Z.of_nat (length frequencyData))
                    / inject_Z (Z.of_nat shapeCount))).

(** [for (let j = startIndex; j < endIndex; j++) sum += ...] for mesh [i],
    with [startIndex = i * bandSize] and [endIndex = startIndex + bandSize]. *)
Definition bandSum (frequencyData : list Q) (i : nat) : Q :=
  fold_left (λ (sum : Q) (j : nat), (sum + normalized (frequencyData !! j))%Q)
            (seq (i * bandSize frequencyData) (bandSize frequencyData)) 0%Q.

(** [sum / bandSize]; [None] is the [NaN] of [0 / 0] when the buffer has
    fewer entries than there are meshes. *)
Definition average (frequencyData : list Q) (i : nat) : option Q :=
  match bandSize frequencyData with
  | O => None
  | S _ => Some (bandSum frequencyData i
                 / inject_Z (Z.of_nat (bandSize frequencyData)))%Q
  end.

(** [1 + average * sensitivity * (isBeat ? 1.3 : 1.0)] *)
Definition scale (average sensitivity : Q) (isBeat : bool) : Q :=
  1 + average * sensitivity * (if isBeat then 13 # 10 else 1).

(** [0.5 + average * 0.5] *)
Definition opacity (average : Q) : Q := (1 # 2) + average * (1 # 2).

End GeometricVisualizer.

(** ** components/visualizers/2d/WaveformVisualizer *)

Module WaveformVisualizer.

(** [Math.max(128, Math.min(settings.wavelengthSize || 1024, 2048))] *)
Definition numSamples (wavelengthSize : option Z) : Z :=
  let requested :=
    match wavelengthSize with
    | Some n => if (n =? 0)%Z then 1024%Z else n
    | None => 1024%Z
    end in
  Z.max 128 (Z.min requested 2048).

(** [Math.min(waveformData.length, numSamples)] *)
Definition bufferLength (waveformData : list Q) (wavelengthSize : option Z) : nat :=
  Z.to_nat (Z.min (Z.of_nat (length waveformData)) (numSamples wavelengthSize)).

(** [(sensitivity ?? 50) / 100] *)
Definition sensitivityScale (sensitivity : option Q) : Q :=
  JS.nullish sensitivity 50 / 100.

Definition margin : Q := 6.
Definition maxAmplitude (height : Q) : Q := (height / 2) - margin.
Definition amplitude (height : Q) (sensitivity : option Q) : Q :=
  maxAmplitude height * sensitivityScale sensitivity.

(** Primary trace:
    [(height / 2) + Math.max(-maxAmplitude, Math.min(waveformData[i] * amplitude, maxAmplitude))] *)
Definition traceY (height : Q) (sensitivity : option Q) (sample : Q) : Q :=
  (height / 2)
  + Qmax (- maxAmplitude height)
         (Qmin (sample * amplitude height sensitivity) (maxAmplitude height)).

(** Mirror effect:
    [(height / 2) - (waveformData[i] * height / 2 * sensitivity)] *)
Definition mirrorY (height : Q) (sensitivity : Q) (sample : Q) : Q :=
  (height / 2) - (sample * height / 2 * sensitivity).

(** The y-coordinates handed to [moveTo] / [lineTo] by one [draw], the
    primary trace first and the mirror pass after it. *)
Definition traceYs (height : Q) (sensitivity : Q) (wavelengthSize : option Z)
    (waveformData : list Q) : list Q :=
  map (traceY height (Some sensitivity))
      (take (bufferLength waveformData wavelengthSize) waveformData).

Definition mirrorYs (height : Q) (sensitivity : Q) (wavelengthSize : option Z)
    (waveformData : list Q) : list Q :=
  map (mirrorY height sensitivity)
      (take (bufferLength waveformData wavelengthSize) waveformData).

Definition renderedYs (height : Q) (sensitivity : Q) (wavelengthSize : option Z)
    (waveformData : list Q) : list Q :=
  traceYs height sensitivity wavelengthSize waveformData
  ++ mirrorYs height sensitivity wavelengthSize waveformData.

(** [width / bufferLength] *)
Definition sliceWidth (width : Q) (bufferLength : nat) : Q :=
  width / inject_Z (Z.of_nat bufferLength).

(** The x-coordinates of a pass: [x] starts at 0 and [x += sliceWidth]
    follows every point. *)
Fixpoint xsFrom (x sliceWidth : Q) (points : nat) : list Q :=
  match points with
  | O => []
  | S points => x :: xsFrom (x + sliceWidth) sliceWidth points
  end.


End WaveformVisualizer.

(** ** services/AudioService *)

Module AudioService.

Inductive AnalyserType : Type := fft | waveform.

(** The Tone.js analyser as the service uses it: its current mode, and
    how the library answers this frame (switching to a mode with
    [set] may throw, [getValue] returns the buffer of the current mode or
    throws). *)
Record Analyser : Type := {
  analyserType : AnalyserType;
  setThrows : AnalyserType → bool;
  getValue : AnalyserType → JS.result (list Q)
}.

(** The Tone.js player: the duration of its loaded buffer if any, the
    position last handed to [seek], and whether [seek] throws. *)
Record Player : Type := {
  buffer : option Q;
  position : Q;
  seekThrows : bool
}.

Inductive AudioSourceType : Type := FILE | MICROPHONE | STREAM.

Record AudioSource : Type := {
  sourceType : AudioSourceType;
  sourceName : string
}.

(** The private fields of the service; [volumeNode] holds
    [volumeNode.volume.value], in decibels. *)
Record State : Type := {
  currentSource : option AudioSource;
  player : option Player;
  analyser : option Analyser;
  isPlaying : bool;
  volumeNode : option R;
  currentVolume : R
}.

Definition with_analyser (s : State) (a : option Analyser) : State :=
  {| currentSource := currentSource s; player := player s; analyser := a;
     isPlaying := isPlaying s; volumeNode := volumeNode s;
     currentVolume := currentVolume s |}.

Definition with_player (s : State) (p : option Player) : State :=
  {| currentSource := currentSource s; player := p; analyser := analyser s;
     isPlaying := isPlaying s; volumeNode := volumeNode s;
     currentVolume := currentVolume s |}.

Definition with_volume (s : State) (node : option R) (v : R) : State :=
  {| currentSource := currentSource s; player := player s;
     analyser := analyser s; isPlaying := isPlaying s; volumeNode := node;
     currentVolume := v |}.

(** The constructor: no source, no player, unity volume, and the
    analyser made by [createAnalyzer(-100, -30)], which stays [null]
    when [new Tone.Analyser] throws. *)
Definition create (made : JS.result Analyser) : State :=
  {| currentSource := None; player := None;
     analyser := match made with
                 | JS.Returned a => Some a
                 | JS.Thrown => None
                 end;
     isPlaying := false; volumeNode := Some 0%R; currentVolume := 1%R |}.

(** [this.analyser.set({ type })] *)
Definition set (type : AnalyserType) : JS.Eff Analyser unit :=
  λ a, if setThrows a type then (a, JS.Thrown)
       else ({| analyserType := type; setThrows := setThrows a;
                getValue := getValue a |}, JS.Returned tt).

(** [this.analyser.getValue()] *)
Definition readValue : JS.Eff Analyser (list Q) :=
  λ a, (a, getValue a (analyserType a)).

(** Run a method of the analyser on the [analyser] field. *)
Definition on_analyser {A} (a : Analyser) (m : JS.Eff Analyser A) : JS.Eff State A :=
  λ s, let (a', r) := m a in (with_analyser s (Some a'), r).

(** [getFrequencyData]: the body of the [try] switches the analyser to
    FFT mode if needed and reads it; the [catch] returns [null]. *)
Definition getFrequencyData : JS.Eff State (option (list Q)) :=
  λ s, match analyser s with
       | None => (s, JS.Returned None)
       | Some a =>
           on_analyser a
             (JS.try_catch
                (let! _ := (match analyserType a with
                            | fft => JS.ret tt
                            | waveform => set fft
                            end) in
                 let! data := readValue in
                 JS.ret (Some data))
                (JS.ret None)) s
       end.

(** [getWaveformData]: switch to waveform mode, read, switch back. *)
Definition getWaveformData : JS.Eff State (option (list Q)) :=
  λ s, match analyser s with
       | None => (s, JS.Returned None)
       | Some a =>
           on_analyser a
             (JS.try_catch
                (let! _ := set waveform in
                 let! waveformData := readValue in
                 let! _ := set fft in
                 JS.ret (Some waveformData))
                (JS.ret None)) s
       end.

(** [bassRange.reduce((sum, value) => sum + Math.abs(value), 0) / bassRange.length],
    every addition and the division rounded to a double; [None] is the
    [NaN] of [0 / 0] on an empty slice. *)
Definition average (bassRange : list Q) : option Q :=
  let sum := fold_left (λ sum value : Q, JS.add sum (Qabs value)) bassRange 0%Q in
  match length bassRange with
  | O => None
  | S _ => Some (JS.div sum (inject_Z (Z.of_nat (length bassRange))))
  end.

(** [average > threshold]; every comparison with [NaN] is false. *)
Definition exceeds (average : option Q) (threshold : Q) : bool :=
  match average with
  | Some a => JS.gt a threshold
  | None => false
  end.

(** The decision of [detectBeat] on the buffer just read. *)
Definition beatOf (frequencyData : list Q) (threshold : Q) : bool :=
  let bassRange := take 10 frequencyData in
  exceeds (average bassRange) threshold.

(** [detectBeat(threshold = 0.15)]; the literal [0.15] is the double
    nearest to 15/100. *)
Definition detectBeat (threshold : option Q) : JS.Eff State bool :=
  let threshold := JS.nullish threshold (JS.double (15 # 100)) in
  let! frequencyData := getFrequencyData in
  match frequencyData with
  | None => JS.ret false
  | Some frequencyData => JS.ret (beatOf frequencyData threshold)
  end.

(** [getDuration] *)
Definition getDuration (s : State) : option Q :=
  match player s with
  | None => None
  | Some p => buffer p
  end.

(** [Math.max(0, Math.min(seconds, duration))] with
    [duration = this.getDuration() || 0] *)
Definition validPosition (s : State) (seconds : Q) : Q :=
  let duration := JS.or_default (getDuration s) 0 in
  Qmax 0 (Qmin seconds duration).

(** [this.player.seek(validPosition)] *)
Definition seek (target : Q) : JS.Eff Player unit :=
  λ p, if seekThrows p then (p, JS.Thrown)
       else ({| buffer := buffer p; position := target;
                seekThrows := seekThrows p |}, JS.Returned tt).

(** [seekTo(seconds)] *)
Definition seekTo (seconds : Q) : JS.Eff State unit :=
  λ s, match player s with
       | None => (s, JS.Returned tt)
       | Some p =>
           let (p', r) :=
             JS.try_catch (seek (validPosition s seconds)) (JS.ret tt) p in
           (with_player s (Some p'), r)
       end.

(** [Math.max(0, Math.min(1, volume))] *)
Definition clampedVolume (volume : R) : R := Rmax 0 (Rmin 1 volume).

(** The value assigned to [decibelValue]: [-70] unless
    [clampedVolume > 0], then [20 * Math.log10(clampedVolume)]. *)
Definition decibelValue (volume : R) : R :=
  if Rlt_dec 0 (clampedVolume volume)
  then (20 * JS.log10 (clampedVolume volume))%R
  else (-70)%R.

(** [setVolume(volume)] *)
Definition setVolume (volume : R) : JS.Eff State unit :=
  λ s, match volumeNode s with
       | None => (s, JS.Returned tt)
       | Some _ =>
           (with_volume s (Some (decibelValue volume)) (clampedVolume volume),
            JS.Returned tt)
       end.

Definition with_playing (s : State) (playing : bool) : State :=
  {| currentSource := currentSource s; player := player s;
     analyser := analyser s; isPlaying := playing;
     volumeNode := volumeNode s; currentVolume := currentVolume s |}.

Definition with_source (s : State) (source : option AudioSource) : State :=
  {| currentSource := source; player := player s; analyser := analyser s;
     isPlaying := isPlaying s; volumeNode := volumeNode s;
     currentVolume := currentVolume s |}.

(** Calls into Tone.js and the browser whose effect lies outside the
    fields of the service: all the service sees is whether they throw. *)
Definition library (throws : bool) : JS.Eff State unit :=
  λ s, (s, if throws then JS.Thrown else JS.Returned tt).

(** [this.isPlaying = playing] *)
Definition setPlaying (playing : bool) : JS.Eff State unit :=
  λ s, (with_playing s playing, JS.Returned tt).

(** [play()]: nothing without a source or while playing; otherwise
    [Tone.start()] and [player.start()], then [isPlaying = true]; an
    error is thrown on to the caller. *)
Definition play (startThrows : bool) : JS.Eff State unit :=
  λ s, match currentSource s with
       | None => (s, JS.Returned tt)
       | Some _ =>
           if isPlaying s then (s, JS.Returned tt)
           else (let! _ := library startThrows in setPlaying true) s
       end.

(** [pause()]: nothing without a source or while not playing; otherwise
    [player.stop()], then [isPlaying = false]. *)
Definition pause (stopThrows : bool) : JS.Eff State unit :=
  λ s, match currentSource s with
       | None => (s, JS.Returned tt)
       | Some _ =>
           if isPlaying s
           then (let! _ := library stopThrows in setPlaying false) s
           else (s, JS.Returned tt)
       end.

(** [stop()]: nothing without a source; otherwise the player is stopped
    and disconnected (or the microphone closed), then
    [isPlaying = false]. *)
Definition stop (stopThrows : bool) : JS.Eff State unit :=
  λ s, match currentSource s with
       | None => (s, JS.Returned tt)
       | Some _ => (let! _ := library stopThrows in setPlaying false) s
       end.

(** [loadAudioFile(file)]: [stop()], [this.player = new Tone.Player(...)],
    [this.player.connect(this.analyser)], then the new source. *)
Definition loadAudioFile (name : string) (stopThrows : bool)
    (made : JS.result Player) (connectThrows : bool) : JS.Eff State AudioSource :=
  let! _ := stop stopThrows in
  let! p := (λ s, (s, made)) in
  let! _ := (λ s, (with_player s (Some p), JS.Returned tt)) in
  let! _ := library connectThrows in
  let source := {| sourceType := FILE; sourceName := name |} in
  λ s, (with_source s (Some source), JS.Returned source).

(** [loadStreamUrl(url)]: as for a file, with the current volume applied
    again before the source is recorded. *)
Definition loadStreamUrl (stopThrows : bool) (made : JS.result Player)
    (connectThrows : bool) : JS.Eff State AudioSource :=
  let! _ := stop stopThrows in
  let! p := (λ s, (s, made)) in
  let! _ := (λ s, (with_player s (Some p), JS.Returned tt)) in
  let! _ := library connectThrows in
  let! _ := (λ s, setVolume (currentVolume s) s) in
  let source := {| sourceType := STREAM; sourceName := "Audio Stream" |} in
  λ s, (with_source s (Some source), JS.Returned source).

(** [initMicrophone()]: [stop()], the permission request and the opening
    of the device, then the new source, which is live at once. *)
Definition initMicrophone (stopThrows openThrows : bool) : JS.Eff State AudioSource :=
  let! _ := stop stopThrows in
  let! _ := library openThrows in
  let source := {| sourceType := MICROPHONE; sourceName := "Microphone Input" |} in
  let! _ := (λ s, (with_source s (Some source), JS.Returned tt)) in
  let! _ := setPlaying true in
  JS.ret source.

Definition getVolume (s : State) : R := currentVolume s.
Definition getAnalyser (s : State) : option Analyser := analyser s.
Definition getCurrentSource (s : State) : option AudioSource := currentSource s.
Definition isCurrentlyPlaying (s : State) : bool := isPlaying s.
Definition isAudioPlaying (s : State) : bool := isPlaying s.

(** [createAnalyzer(minDb, maxDb)]: an analyser in place is disposed of
    first, an error there being caught ([disposed] is how the old object
    answers from then on); [this.analyser] is replaced when
    [new Tone.Analyser] returns and kept when it throws; errors in the
    rest of the body are caught.  The decibel window goes to the native
    node: it scales byte data only, which the service never reads. *)
Definition createAnalyzer (disposed : Analyser) (made : JS.result Analyser)
    : JS.Eff State unit :=
  λ s, let s := match analyser s with
                | Some _ => with_analyser s (Some disposed)
                | None => s
                end in
       (match made with
        | JS.Returned a => with_analyser s (Some a)
        | JS.Thrown => s
        end, JS.Returned tt).

(** [setAnalyzerSensitivity(minDb, maxDb)]: without an analyser one is
    created; otherwise the window is written to the native node where
    one is found ([direct] tells whether it was, or that the write
    threw), a new analyser is created when none is found, and every
    error is caught. *)
Definition setAnalyzerSensitivity (minDb maxDb : Q) (direct : JS.result bool)
    (disposed : Analyser) (made : JS.result Analyser) : JS.Eff State unit :=
  λ s, match analyser s with
       | None => createAnalyzer disposed made s
       | Some _ =>
           JS.try_catch
             (let! success := (λ s, (s, direct)) in
              if (success : bool) then JS.ret tt
              else createAnalyzer disposed made)
             (JS.ret tt) s
       end.

(** [getCurrentTime()], [now] being what
    [this.player.toSeconds(this.player.now())] does. *)
Definition getCurrentTime (now : JS.result Q) (s : State) : option Q :=
  match player s with
  | None => None
  | Some _ =>
      if isPlaying s
      then match now with
           | JS.Returned seconds => Some seconds
           | JS.Thrown => None
           end
      else None
  end.

(** A call of a public method, with the answers of the library.  The
    arguments are numbers: [NaN] is not among them ([setVolume(NaN)]
    would store [NaN] as the volume, which the clamp lets through). *)
Inductive Call : Type :=
| Play (startThrows : bool)
| Pause (stopThrows : bool)
| Stop (stopThrows : bool)
| LoadAudioFile (name : string) (stopThrows : bool) (made : JS.result Player)
    (connectThrows : bool)
| LoadStreamUrl (stopThrows : bool) (made : JS.result Player) (connectThrows : bool)
| InitMicrophone (stopThrows openThrows : bool)
| SetVolume (volume : R)
| SeekTo (seconds : Q)
| GetFrequencyData
| GetWaveformData
| DetectBeat (threshold : option Q)
| SetAnalyzerSensitivity (minDb maxDb : Q) (direct : JS.result bool)
    (disposed : Analyser) (made : JS.result Analyser)
| GetVolume
| GetAnalyser
| GetCurrentSource
| IsCurrentlyPlaying
| IsAudioPlaying
| GetAudioContext
| GetToneContext
| GetCurrentTime (now : JS.result Q)
| GetDuration.

(** The service after a call, whether it returned or threw. *)
Definition perform (call : Call) (s : State) : State :=
  match call with
  | Play startThrows => fst (play startThrows s)
  | Pause stopThrows => fst (pause stopThrows s)
  | Stop stopThrows => fst (stop stopThrows s)
  | LoadAudioFile name stopThrows made connectThrows =>
      fst (loadAudioFile name stopThrows made connectThrows s)
  | LoadStreamUrl stopThrows made connectThrows =>
      fst (loadStreamUrl stopThrows made connectThrows s)
  | InitMicrophone stopThrows openThrows =>
      fst (initMicrophone stopThrows openThrows s)
  | SetVolume volume => fst (setVolume volume s)
  | SeekTo seconds => fst (seekTo seconds s)
  | GetFrequencyData => fst (getFrequencyData s)
  | GetWaveformData => fst (getWaveformData s)
  | DetectBeat threshold => fst (detectBeat threshold s)
  | SetAnalyzerSensitivity minDb maxDb direct disposed made =>
      fst (setAnalyzerSensitivity minDb maxDb direct disposed made s)
  | GetVolume | GetAnalyser | GetCurrentSource | IsCurrentlyPlaying
  | IsAudioPlaying | GetAudioContext | GetToneContext | GetCurrentTime _
  | GetDuration => s
  end.

(** The service after a sequence of calls, the first call first. *)
Definition performAll (calls : list Call) (s : State) : State :=
  fold_left (λ s call, perform call s) calls s.

End AudioService.

(** ** contexts/VisualizationContext *)

Module VisualizationContext.

(** JavaScript values stored in a settings object. *)
#[local] Unset Elimination Schemes.
Inductive value : Type :=
| VNumber (q : Q)
| VString (s : string)
| VBoolean (b : bool)
| VUndefined
| VArray (items : list value)
| VObject (fields : list (string * value)).
#[local] Set Elimination Schemes.

(** A settings object, and a [Partial<VisualizationSettings>], as finite
    maps from property names to values. *)
Abbreviation settings_object := (gmap string value).

Record ColorScheme : Type := {
  scheme_id : string;
  scheme_name : string;
  colors : list string
}.

Record Preset : Type := {
  preset_id : string;
  preset_name : string;
  preset_settings : settings_object
}.

(** The three [useState] cells of [VisualizationProvider]. *)
Record Provider : Type := {
  settings : settings_object;
  presets : list Preset;
  colorSchemes : list ColorScheme
}.

Definition defaultColorSchemes : list ColorScheme :=
  [ {| scheme_id := "default"; scheme_name := "Default";
       colors := ["#ff0000"; "#00ff00"; "#0000ff"; "#ffff00"; "#00ffff"; "#ff00ff"] |};
    {| scheme_id := "neon"; scheme_name := "Neon";
       colors := ["#ff00ff"; "#00ffff"; "#ffff00"; "#ff00aa"; "#aa00ff"; "#00ff99"] |};
    {| scheme_id := "monochrome"; scheme_name := "Monochrome";
       colors := ["#ffffff"; "#dddddd"; "#bbbbbb"; "#999999"; "#777777"; "#555555"] |};
    {| scheme_id := "sunset"; scheme_name := "Sunset";
       colors := ["#ff7700"; "#ff5500"; "#ff0077"; "#ffaa00"; "#ff0000"; "#ff9900"] |} ].

Definition scheme_value (c : ColorScheme) : value :=
  VObject [ ("id", VString (scheme_id c)); ("name", VString (scheme_name c));
            ("colors", VArray (VString <$> colors c)) ].

Definition defaultScheme : ColorScheme :=
  default {| scheme_id := ""; scheme_name := ""; colors := [] |}
          (defaultColorSchemes !! 0%nat).

Definition defaultSettings : settings_object :=
  list_to_map
    [ ("type", VString "bars_2d");
      ("visualizationType", VString "bars_2d");
      ("resolution", VObject [("width", VNumber 1280); ("height", VNumber 720)]);
      ("width", VNumber 1280);
      ("height", VNumber 720);
      ("orientation", VString "horizontal");
      ("frameRate", VNumber 60);
      ("colorScheme", scheme_value defaultScheme);
      ("sensitivity", VNumber 1);
      ("showControls", VBoolean true);
      ("isSimpleMode", VBoolean true);
      ("barWidth", VNumber 5);
      ("barSpacing", VNumber 2);
      ("amplification", VNumber (3 # 2));
      ("primaryColor", VString "#ff0000");
      ("secondaryColor", VString "#00ff00");
      ("useGradient", VBoolean true);
      ("lineWidth", VNumber 2);
      ("useGlow", VBoolean false);
      ("glowIntensity", VNumber 5);
      ("useRotation", VBoolean false);
      ("rotationSpeed", VNumber (1 # 2));
      ("wavelengthSize", VNumber 1024);
      ("numFrequencyBands", VNumber 8) ].

(** The provider as first rendered. *)
Definition initial : Provider :=
  {| settings := defaultSettings; presets := [];
     colorSchemes := defaultColorSchemes |}.

(** [{ ...prev, ...updates }]: the properties of [updates] win. *)
Definition spread (prev updates : settings_object) : settings_object :=
  updates ∪ prev.

(** [updateSettings(updates)]: [setSettings(prev => ({ ...prev, ...updates }))] *)
Definition updateSettings (updates : settings_object) (p : Provider) : Provider :=
  {| settings := spread (settings p) updates; presets := presets p;
     colorSchemes := colorSchemes p |}.

(** [savePreset(name)], [now] being the value of [Date.now()]. *)
Definition savePreset (name : string) (now : Z) (p : Provider) : Provider :=
  let newPreset :=
    {| preset_id := "preset-" +:+ pretty now; preset_name := name;
       preset_settings := spread (settings p) ∅ |} in
  {| settings := settings p; presets := presets p ++ [newPreset];
     colorSchemes := colorSchemes p |}.

(** [loadPreset(presetId)] *)
Definition loadPreset (presetId : string) (p : Provider) : Provider :=
  match find (λ q, bool_decide (preset_id q = presetId)) (presets p) with
  | Some preset =>
      {| settings := preset_settings preset; presets := presets p;
         colorSchemes := colorSchemes p |}
  | None => p
  end.

(** [addColorScheme(name, colors)] *)
Definition addColorScheme (name : string) (cs : list string) (now : Z)
    (p : Provider) : Provider :=
  let newScheme :=
    {| scheme_id := "scheme-" +:+ pretty now; scheme_name := name;
       colors := cs |} in
  {| settings := settings p; presets := presets p;
     colorSchemes := colorSchemes p ++ [newScheme] |}.

End VisualizationContext.

(** ** hooks/useKeyboardShortcuts *)

Module KeyboardShortcuts.

(** The service together with [window.previousVolume]. *)
Record Page : Type := {
  service : AudioService.State;
  previousVolume : option R
}.

(** [Number.MAX_VALUE] *)
Definition MAX_VALUE : Q := inject_Z (2 ^ 1024 - 2 ^ 971).

(** [d || Number.MAX_VALUE] *)
Definition durationOrMax (s : AudioService.State) : Q :=
  JS.or_default (AudioService.getDuration s) MAX_VALUE.

(** ['Space']: toggle between [pause()] and [play()]. *)
Definition space (libraryThrows : bool) : JS.Eff AudioService.State unit :=
  λ s, if AudioService.isCurrentlyPlaying s
       then AudioService.pause libraryThrows s
       else AudioService.play libraryThrows s.

(** ['ArrowLeft']:
    [seekTo(Math.max(0, (getCurrentTime() || 0) - seekIncrement))] *)
Definition arrowLeft (seekIncrement : Q) (now : JS.result Q)
    : JS.Eff AudioService.State unit :=
  λ s, let currentTime := JS.or_default (AudioService.getCurrentTime now s) 0 in
       AudioService.seekTo (Qmax 0 (currentTime - seekIncrement)) s.

(** ['ArrowRight']:
    [seekTo(Math.min(getDuration() || Number.MAX_VALUE, (getCurrentTime() || 0) + seekIncrement))] *)
Definition arrowRight (seekIncrement : Q) (now : JS.result Q)
    : JS.Eff AudioService.State unit :=
  λ s, let time := JS.or_default (AudioService.getCurrentTime now s) 0 in
       let duration := durationOrMax s in
       AudioService.seekTo (Qmin duration (time + seekIncrement)) s.

(** [window.previousVolume || 1.0] *)
Definition previousOrFull (previous : option R) : R :=
  match previous with
  | Some v => if Req_dec_T v 0 then 1%R else v
  | None => 1%R
  end.

(** ['KeyM']: mute, remembering the volume, or restore it. *)
Definition keyM (page : Page) : Page :=
  let volume := AudioService.getVolume (service page) in
  if Rlt_dec 0 volume
  then {| service := fst (AudioService.setVolume 0 (service page));
          previousVolume := Some volume |}
  else {| service := fst (AudioService.setVolume
                            (previousOrFull (previousVolume page))
                            (service page));
          previousVolume := previousVolume page |}.

End KeyboardShortcuts.

(** ** components/ui/AudioProgressBar *)

Module AudioProgressBar.

(** [Math.max(0, Math.min(1, position))] *)
Definition clampedPosition (position : Q) : Q := Qmax 0 (Qmin 1 position).

(** [handleClick] and [handleMouseMove] while dragging: the clamped
    position is kept and, when a duration is known, sought. *)
Definition handleClick (position : Q) (duration : option Q)
    : JS.Eff AudioService.State Q :=
  λ s, match duration with
       | Some d =>
           let (s', r) := AudioService.seekTo (clampedPosition position * d) s in
           (s', match r with
                | JS.Returned _ => JS.Returned (clampedPosition position)
                | JS.Thrown => JS.Thrown
                end)
       | None => (s, JS.Returned (clampedPosition position))
       end.

(** [handleMouseDown]: the clamped position is kept, the position as
    measured is sought. *)
Definition handleMouseDown (position : Q) (duration : option Q)
    : JS.Eff AudioService.State Q :=
  λ s, match duration with
       | Some d =>
           let (s', r) := AudioService.seekTo (position * d) s in
           (s', match r with
                | JS.Returned _ => JS.Returned (clampedPosition position)
                | JS.Thrown => JS.Thrown
                end)
       | None => (s, JS.Returned (clampedPosition position))
       end.

(** The fraction shown by the fill and the handle. *)
Definition progress (isDragging : bool) (dragPosition : Q)
    (currentTime duration : option Q) : Q :=
  if isDragging then dragPosition
  else match currentTime, duration with
       | Some currentTime, Some duration =>
           if JS.gt duration 0 then currentTime / duration else 0
       | _, _ => 0
       end.

(** [text.padStart(2, '0')] *)
Definition padStart2 (text : string) : string :=
  match String.length text with
  | 0%nat => "00"
  | 1%nat => "0" +:+ text
  | _ => text
  end.

(** [formatTime(seconds)] of the progress bar:
    [`${mins}:${secs.toString().padStart(2, '0')}`], for a time below
    [2^53] seconds in size: there the quotient by 60 has the floor of
    the exact quotient and whole numbers are printed digit by digit.
    Beyond, JavaScript rounds the quotient and prints rounded digits,
    then an exponent; that is not followed here. *)
Definition formatTime (seconds : option Q) : string :=
  match seconds with
  | None => "0:00"
  | Some seconds =>
      let mins := Qfloor (seconds / 60) in
      let secs := Qfloor (JS.remainder seconds 60) in
      pretty mins +:+ ":" +:+ padStart2 (pretty secs)
  end.

End AudioProgressBar.

(** ** components/ui/VolumeControl *)

Module VolumeControl.

(** The three [useState] cells of the control and the service it
    drives. *)
Record Control : Type := {
  volume : R;
  isMuted : bool;
  previousVolume : R;
  service : AudioService.State
}.

(** The control once mounted: full volume until the effect reads the
    volume of the service. *)
Definition mounted (s : AudioService.State) : Control :=
  {| volume := AudioService.getVolume s; isMuted := false;
     previousVolume := 1%R; service := s |}.

(** [handleVolumeChange] and [handleVolumeInput], [newVolume] being the
    parsed value of the slider. *)
Definition handleVolumeChange (newVolume : R) (c : Control) : Control :=
  {| volume := newVolume;
     isMuted := if Rlt_dec 0 newVolume then false else isMuted c;
     previousVolume := previousVolume c;
     service := fst (AudioService.setVolume newVolume (service c)) |}.

(** [toggleMute] *)
Definition toggleMute (c : Control) : Control :=
  if isMuted c
  then {| volume := previousVolume c; isMuted := false;
          previousVolume := previousVolume c;
          service := fst (AudioService.setVolume (previousVolume c) (service c)) |}
  else {| volume := 0%R; isMuted := true; previousVolume := volume c;
          service := fst (AudioService.setVolume 0 (service c)) |}.

(** What the user does to the control. *)
Inductive Event : Type :=
| Slide (newVolume : R)
| ToggleMute.

Definition handle (event : Event) (c : Control) : Control :=
  match event with
  | Slide newVolume => handleVolumeChange newVolume c
  | ToggleMute => toggleMute c
  end.

Definition handleAll (events : list Event) (c : Control) : Control :=
  fold_left (λ c event, handle event c) events c.

End VolumeControl.

(** ** components/ui/VisualizationSettings *)

Module VisualizationSettings.

(** The analyser window derived from the sensitivity slider:
    [-100 + (70 * sensitivity / 100)] and [-30 + (30 * sensitivity / 100)]. *)
Definition minDb (sensitivity : Q) : Q := -100 + (70 * sensitivity / 100).
Definition maxDb (sensitivity : Q) : Q := -30 + (30 * sensitivity / 100).

(** [handleColorSchemeChange(schemeId)] *)
Definition handleColorSchemeChange (schemeId : string)
    (p : VisualizationContext.Provider) : VisualizationContext.Provider :=
  match find (λ scheme, bool_decide (VisualizationContext.scheme_id scheme = schemeId))
             (VisualizationContext.colorSchemes p) with
  | Some scheme =>
      VisualizationContext.updateSettings
        {[ "colorScheme" := VisualizationContext.scheme_value scheme ]} p
  | None => p
  end.

End VisualizationSettings.

(** ** components/visualization/VisualizationCanvas *)

Module VisualizationCanvas.

(** A number stored into a [Uint8Array]: truncated towards zero, then
    taken modulo 256. *)
Definition toUint8 (x : Q) : Z := (Z.quot (Qnum x) (Zpos (Qden x))) mod 256.

(** [Math.min(255, Math.max(0, ((value + 1) * 127.5)))], stored as a byte. *)
Definition toByte (value : Q) : Z :=
  toUint8 (Qmin 255 (Qmax 0 ((value + 1) * (255 # 2)))).

(** The copy loop of [draw]: entry [i] of the byte buffer is overwritten
    while [i < freqData.length]; a sample missing from [waveData] is
    [undefined], which the clamp turns into [NaN] and the store into 0. *)
Definition copyFrequency (frequencyData : list Z) (freqData : list Q) : list Z :=
  imap (λ i old, match freqData !! i with
                 | Some value => toByte value
                 | None => old
                 end) frequencyData.

Definition copyTime (timeData : list Z) (freqData waveData : list Q) : list Z :=
  imap (λ i old, match freqData !! i with
                 | Some _ => match waveData !! i with
                             | Some value => toByte value
                             | None => 0%Z
                             end
                 | None => old
                 end) timeData.

(** [applySensitivity(data, sensitivity)]:
    [Math.min(255, Math.max(0, Math.floor(data[i] * sensitivity)))] into a
    new byte array. *)
Definition applySensitivity (data : list Z) (sensitivity : Q) : list Z :=
  (λ byte, toUint8 (inject_Z (Z.min 255 (Z.max 0 (Qfloor (inject_Z byte * sensitivity))))))
  <$> data.

(** The band limits of the asteroid modes:
    [Math.floor((freqData.length / numBands) * band)] and
    [Math.floor((freqData.length / numBands) * (band + 1))], with
    [numBands = 5]. *)
Definition numBands : Z := 5.

Definition startIdx (freqData : list Z) (band : Z) : Z :=
  Qfloor ((inject_Z (Z.of_nat (length freqData)) / inject_Z numBands)
          * inject_Z band).

Definition endIdx (freqData : list Z) (band : Z) : Z :=
  Qfloor ((inject_Z (Z.of_nat (length freqData)) / inject_Z numBands)
          * inject_Z (band + 1)).

(** [for (let i = startIdx; i < endIdx; i++) bandSum += freqData[i]];
    [None] if an index falls outside the buffer ([NaN]). *)
Definition bandSum (freqData : list Z) (band : Z) : option Z :=
  let startIdx := startIdx freqData band in
  let endIdx := endIdx freqData band in
  foldl (λ (bandSum : option Z) (i : nat),
           sum ← bandSum; byte ← freqData !! i; Some (sum + byte)%Z)
        (Some 0%Z)
        (seq (Z.to_nat startIdx) (Z.to_nat (endIdx - startIdx))).

(** [bandSum / (endIdx - startIdx) / 255]; [None] is [NaN], from a
    missing entry or from [0 / 0] over an empty band. *)
Definition bandValue (freqData : list Z) (band : Z) : option Q :=
  let width := (endIdx freqData band - startIdx freqData band)%Z in
  sum ← bandSum freqData band;
  if (width =? 0)%Z then None
  else Some (inject_Z sum / inject_Z width / 255)%Q.

(** Screen wrapping of one coordinate of an asteroid:
    [if (p.x < -p.size) p.x = width + p.size;
     if (p.x > width + p.size) p.x = -p.size;] *)
Definition wrap (coordinate size extent : Q) : Q :=
  let coordinate :=
    if JS.gt (- size) coordinate then (extent + size)%Q else coordinate in
  if JS.gt coordinate (extent + size) then (- size)%Q else coordinate.

(** [Math.floor(intensity * (settings.colorScheme.colors.length - 1))] in
    the particle and asteroid modes of the canvas. *)
Definition colorIndex (intensity : Q) (colors : list string) : Z :=
  Qfloor (intensity * inject_Z (Z.of_nat (length colors) - 1)).

(** [data[dataIndex] / 255] *)
Definition intensity (byte : Z) : Q := inject_Z byte / 255.

(** The y-coordinate of a point of [drawWaveform]:
    [value = data[i] / 128.0 - 1.0], [scaledValue = value * amplification],
    [y = centerY + (scaledValue * centerY / 2)] with [centerY = height / 2]. *)
Definition waveformY (height amplification : Q) (byte : Z) : Q :=
  let centerY := (height / 2)%Q in
  let value := (inject_Z byte / 128 - 1)%Q in
  let scaledValue := (value * amplification)%Q in
  centerY + (scaledValue * centerY / 2).

(** [formatTime(seconds)] of the progress bar drawn on the canvas:
    [`${mins}:${secs < 10 ? '0' + secs : secs}`], for a time below
    [2^53] seconds in size, as for the one of [AudioProgressBar]. *)
Definition formatTime (seconds : Q) : string :=
  let mins := Qfloor (seconds / 60) in
  let secs := Qfloor (JS.remainder seconds 60) in
  pretty mins +:+ ":" +:+ (if (secs <? 10)%Z then "0" +:+ pretty secs else pretty secs).

End VisualizationCanvas.

(** ** The formulas as the specification words them *)

Module Spec.

(** Mean absolute magnitude of a slice, in exact arithmetic. *)
Definition sumAbs (slice : list Q) : Q :=
  foldr (λ value rest, Qabs value + rest)%Q 0%Q slice.

Definition meanAbs (slice : list Q) : Q :=
  sumAbs slice / inject_Z (Z.of_nat (length slice)).

(** [colorIndex = floor(drivingValue · (colors.length - 1))] *)
Definition colorIndex (drivingValue : Q) (colors : list string) : Z :=
  Qfloor (drivingValue * inject_Z (Z.of_nat (length colors) - 1)).

(** A read error inside [getFrequencyData]: switching a waveform-mode
    analyser back to FFT throws, or reading the FFT buffer throws. *)
Definition frequencyReadThrows (a : AudioService.Analyser) : bool :=
  match AudioService.analyserType a with
  | AudioService.fft => false
  | AudioService.waveform => AudioService.setThrows a AudioService.fft
  end
  || JS.throws (AudioService.getValue a AudioService.fft).

(** A read error inside [getWaveformData]: either switch of mode throws,
    or reading the waveform buffer throws. *)
Definition waveformReadThrows (a : AudioService.Analyser) : bool :=
  AudioService.setThrows a AudioService.waveform
  || JS.throws (AudioService.getValue a AudioService.waveform)
  || AudioService.setThrows a AudioService.fft.

(** What every state of the service reached by public calls satisfies:
    it plays only with a source, its volume is in [0, 1], and its volume
    node exists and holds a gain of at most 0 dB. *)
Definition consistent (s : AudioService.State) : Prop :=
  (AudioService.isPlaying s = true → AudioService.currentSource s ≠ None)
  ∧ (0 <= AudioService.currentVolume s <= 1)%R
  ∧ ∃ gain : R, AudioService.volumeNode s = Some gain ∧ (gain <= 0)%R.

(** What a mounted volume control keeps:
    it shows the volume of the service, within [0, 1], remembers a
    volume within [0, 1], and shows 0 while muted. *)
Definition inStep (c : VolumeControl.Control) : Prop :=
  VolumeControl.volume c = AudioService.currentVolume (VolumeControl.service c)
  ∧ (0 <= VolumeControl.volume c <= 1)%R
  ∧ (0 <= VolumeControl.previousVolume c <= 1)%R
  ∧ (VolumeControl.isMuted c = true → VolumeControl.volume c = 0%R)
  ∧ AudioService.volumeNode (VolumeControl.service c) ≠ None.

End Spec.

(** ** Concrete services used to exercise the statements *)

Module Examples.

(** An analyser that never throws and reads twelve bins at -50 dB in
    FFT mode and a two-sample waveform. *)
Definition steadyAnalyser : AudioService.Analyser :=
  {| AudioService.analyserType := AudioService.fft;
     AudioService.setThrows := λ _, false;
     AudioService.getValue := λ type,
       JS.Returned
         match type with
         | AudioService.fft => repeat (-50)%Q 12
         | AudioService.waveform => [1 # 2; -1 # 2]%Q
         end |}.

(** The service as constructed: analyser in place, no source started. *)
Definition freshService : AudioService.State :=
  AudioService.create (JS.Returned steadyAnalyser).

(** The service once a three-minute file has been loaded. *)
Definition loadedService : AudioService.State :=
  AudioService.with_player
    {| AudioService.currentSource :=
         Some {| AudioService.sourceType := AudioService.FILE;
                 AudioService.sourceName := "track.mp3" |};
       AudioService.player := None;
       AudioService.analyser := Some steadyAnalyser;
       AudioService.isPlaying := false;
       AudioService.volumeNode := Some 0%R;
       AudioService.currentVolume := 1%R |}
    (Some {| AudioService.buffer := Some 180%Q;
             AudioService.position := 0%Q;
             AudioService.seekThrows := false |}).

End Examples.

(** * Properties *)

(** ** Logarithmic band placement of the bar visualizer *)

Section LogBinning.
Local Open Scope R_scope.

Lemma ln10_pos : 0 < ln 10.
Proof. rewrite <- ln_1. apply ln_increasing; rlra. Qed.

Lemma logRange_pos : 0 < BarVisualizer.logRange.
Proof.
  unfold BarVisualizer.logRange, BarVisualizer.logMax, BarVisualizer.logMin,
    JS.log10, BarVisualizer.maxFreq, BarVisualizer.minFreq.
  pose proof ln10_pos as H10.
  assert (ln 20 < ln 20000) by (apply ln_increasing; rlra).
  unfold Rdiv. apply Rlt_0_minus.
  apply Rmult_lt_compat_r; [ apply Rinv_0_lt_compat |]; assumption.
Qed.

Lemma pow10_pos x : 0 < JS.pow10 x.
Proof. unfold JS.pow10, Rpower. apply exp_pos. Qed.

Lemma pow10_increasing x y : x < y → JS.pow10 x < JS.pow10 y.
Proof.
  intros Hxy. unfold JS.pow10, Rpower. apply exp_increasing.
  apply Rmult_lt_compat_r; [ apply ln10_pos | exact Hxy ].
Qed.

Lemma logFreq_increasing (n : Z) (i j : nat) :
  (0 < n)%Z → (i < j)%nat →
  BarVisualizer.logFreq n i < BarVisualizer.logFreq n j.
Proof.
  intros Hn Hij. unfold BarVisualizer.logFreq.
  pose proof logRange_pos as Hr.
  apply Rplus_lt_compat_l, Rmult_lt_compat_r; [ exact Hr |].
  unfold Rdiv. apply Rmult_lt_compat_r.
  - apply Rinv_0_lt_compat. now apply IZR_lt.
  - now apply lt_INR.
Qed.

Lemma freq_increasing (n : Z) (i j : nat) :
  (0 < n)%Z → (i < j)%nat → BarVisualizer.freq n i < BarVisualizer.freq n j.
Proof.
  intros Hn Hij. unfold BarVisualizer.freq.
  now apply pow10_increasing, logFreq_increasing.
Qed.

Lemma binIndex_nonneg (n : Z) (fftSize i : nat) :
  (0 ≤ BarVisualizer.binIndex n fftSize i)%Z.
Proof.
  unfold BarVisualizer.binIndex. apply Zfloor_lub. simpl.
  pose proof (pow10_pos (BarVisualizer.logFreq n i)) as Hf.
  pose proof (pos_INR fftSize) as Hs.
  fold (BarVisualizer.freq n i) in Hf.
  unfold BarVisualizer.nyquist.
  apply Rmult_le_pos; [| rlra ].
  unfold Rdiv. apply Rmult_le_pos; [ rlra |].
  apply Rlt_le, Rinv_0_lt_compat. rlra.
Qed.

End LogBinning.

Example numBands_default : BarVisualizer.numBands None = 8%Z.
Proof. reflexivity. Qed.

Example numBands_clamped :
  BarVisualizer.numBands (Some 2%Z) = 4%Z ∧ BarVisualizer.numBands (Some 40%Z) = 12%Z.
Proof. split; reflexivity. Qed.

Lemma numBands_in_range (requested : option Z) :
  (4 ≤ BarVisualizer.numBands requested ≤ 12)%Z.
Proof. unfold BarVisualizer.numBands. lia. Qed.

Lemma numBands_id (N : Z) :
  (4 ≤ N ≤ 12)%Z → BarVisualizer.numBands (Some N) = N.
Proof.
  intros HN. unfold BarVisualizer.numBands.
  destruct (Z.eqb_spec N 0); lia.
Qed.

Lemma freqBins_lookup (n : Z) (fftSize i : nat) (b : Z) :
  BarVisualizer.freqBins n fftSize !! i = Some b →
  (i < Z.to_nat n)%nat
  ∧ b = Z.min (BarVisualizer.binIndex n fftSize i) (Z.of_nat fftSize - 1).
Proof.
  unfold BarVisualizer.freqBins. rewrite list_lookup_fmap.
  destruct (seq 0 (Z.to_nat n) !! i) as [k|] eqn:Hk; simpl; [| discriminate ].
  apply lookup_seq in Hk as [-> Hlt]. intros [= <-]. split; [ exact Hlt | reflexivity ].
Qed.

(** C1. For a band count N in [4,12] and a non-empty magnitude array, the
    bar mode computes exactly N bands; band [i] sits at
    [10^(log10 20 + (i/N) (log10 20000 - log10 20))], these centre
    frequencies increase strictly with [i], and every stored bin index is
    [min (floor (freq / 22050 * (length / 2))) (length - 1)] and lies in
    [0, length - 1]. *)
Theorem bar_bands_log_spaced (N : Z) (magnitudes : list Q) :
  (4 ≤ N ≤ 12)%Z → magnitudes ≠ [] →
  let n := BarVisualizer.numBands (Some N) in
  let fftSize := length magnitudes in
  n = N
  ∧ length (BarVisualizer.freqBins n fftSize) = Z.to_nat N
  ∧ (∀ i : nat, (i < Z.to_nat N)%nat →
       BarVisualizer.freq n i
       = Rpower 10 (JS.log10 20
                    + (INR i / IZR N) * (JS.log10 20000 - JS.log10 20))%R)
  ∧ (∀ i j : nat, (i < j)%nat → (j < Z.to_nat N)%nat →
       (BarVisualizer.freq n i < BarVisualizer.freq n j)%R)
  ∧ (∀ (i : nat) (b : Z), BarVisualizer.freqBins n fftSize !! i = Some b →
       b = Z.min (Zfloor ((BarVisualizer.freq n i / 22050)
                          * (INR fftSize / 2))%R)
                 (Z.of_nat fftSize - 1)
       ∧ (0 ≤ b ≤ Z.of_nat fftSize - 1)%Z).
Proof.
  intros HN Hne n fftSize. subst n.
  rewrite (numBands_id N HN).
  split; [ reflexivity |].
  split; [ unfold BarVisualizer.freqBins; now rewrite length_fmap, length_seq |].
  split; [ intros i _; reflexivity |].
  split; [ intros i j Hij _; apply freq_increasing; [ lia | exact Hij ] |].
  intros i b Hb. apply freqBins_lookup in Hb as [_ ->].
  split; [ reflexivity |].
  assert (0 < fftSize)%nat by (subst fftSize; destruct magnitudes; simpl; [ congruence | lia ]).
  pose proof (binIndex_nonneg N fftSize i). lia.
Qed.

(** The hypotheses of [bar_bands_log_spaced] hold for eight bands over a
    three-entry buffer. *)
Lemma bar_bands_log_spaced_witness :
  length (BarVisualizer.freqBins (BarVisualizer.numBands (Some 8%Z)) 3) = 8%nat.
Proof.
  apply (bar_bands_log_spaced 8 [-40; -55; -90]%Q); [ lia | discriminate ].
Defined.

(** ** Decibel normalisation *)

(** Division by the constants of the source, as multiplication. *)
Ltac qconst :=
  unfold Qdiv in *;
  change (/ 100)%Q with (1 # 100)%Q in *;
  change (/ 2)%Q with (1 # 2)%Q in *.

Lemma or_default_nonzero (v d : Q) : ¬ (v == 0)%Q → JS.or_default (Some v) d = v.
Proof.
  intros Hv. unfold JS.or_default, JS.is_zero.
  destruct (Qeq_bool v 0) eqn:E; [| reflexivity ].
  apply Qeq_bool_iff in E. contradiction.
Qed.

(** C2, evaluated where it fails.  The normalisation is meant to yield
    a value in [0,1] (the source says [Normalize to 0-1]) and does so at
    the two ends, -100 dB giving 0 and, in the bar mode, 0 dB giving 1;
    but no site clamps.  A reading of -150 dB, a quiet bin, is
    normalised to -1/2 by the bar, the particle and the geometric modes
    alike; in the particle mode the colour index computed from it over
    three colours is -2, where the colour table has no entry. *)
Theorem normalization_leaves_unit_interval :
  (BarVisualizer.normalizedValue (-100) == 0)%Q
  ∧ (BarVisualizer.normalizedValue 0 == 1)%Q
  ∧ (BarVisualizer.normalizedValue (-150) == - (1 # 2))%Q
  ∧ (ParticleVisualizer.audioValue (Some (-150)) == - (1 # 2))%Q
  ∧ (GeometricVisualizer.normalized (Some (-150)) == - (1 # 2))%Q
  ∧ ¬ (0 <= BarVisualizer.normalizedValue (-150) <= 1)%Q
  ∧ ¬ (0 <= ParticleVisualizer.audioValue (Some (-150)) <= 1)%Q
  ∧ ¬ (0 <= GeometricVisualizer.normalized (Some (-150)) <= 1)%Q
  ∧ ParticleVisualizer.colorSlot (ParticleVisualizer.audioValue (Some (-150)%Q))
      ["#ff0000"; "#00ff00"; "#0000ff"] = (-2)%Z.
Proof.
  repeat split; try reflexivity;
    intros [H _]; vm_compute in H; apply H; reflexivity.
Qed.

(** ** Colour selection *)

Section ColourIndex.
Local Open Scope Q_scope.

Lemma inject_Z_lt (a b : Z) : (a < b)%Z → inject_Z a < inject_Z b.
Proof. intros H. now rewrite <- Zlt_Qlt. Qed.

Lemma inject_Z_lt_inv (a b : Z) : inject_Z a < inject_Z b → (a < b)%Z.
Proof. intros H. now rewrite Zlt_Qlt. Qed.

Lemma inject_Z_le (a b : Z) : (a ≤ b)%Z → inject_Z a <= inject_Z b.
Proof. intros H. now rewrite <- Zle_Qle. Qed.

Lemma fraction_bounds (i : nat) (n : Z) :
  (0 < n)%Z → (Z.of_nat i < n)%Z →
  0 <= inject_Z (Z.of_nat i) / inject_Z n ∧ inject_Z (Z.of_nat i) / inject_Z n < 1.
Proof.
  intros Hn Hi.
  assert (Hn' : 0 < inject_Z n) by exact (inject_Z_lt 0 n Hn).
  split.
  - apply Qle_shift_div_l; [ exact Hn' |].
    rewrite Qmult_0_l. apply (inject_Z_le 0 (Z.of_nat i)). lia.
  - apply Qlt_shift_div_r; [ exact Hn' |].
    rewrite Qmult_1_l. apply inject_Z_lt. exact Hi.
Qed.

Lemma Qfloor_nonneg (x : Q) : 0 <= x → (0 ≤ Qfloor x)%Z.
Proof. intros Hx. change 0%Z with (Qfloor 0). now apply Qfloor_resp_le. Qed.

Lemma Qfloor_below (x : Q) (m : Z) : x < inject_Z m → (Qfloor x ≤ m - 1)%Z.
Proof.
  intros Hx. pose proof (Qfloor_le x) as Hf.
  assert (H : inject_Z (Qfloor x) < inject_Z m) by (eapply Qle_lt_trans; eassumption).
  apply inject_Z_lt_inv in H. lia.
Qed.

Lemma scaled_fraction_floor (v : Q) (len : Z) :
  0 <= v → v < 1 → (0 < len)%Z →
  (0 ≤ Qfloor (v * inject_Z len) ≤ len - 1)%Z.
Proof.
  intros Hv0 Hv1 Hlen.
  assert (Hl : 0 < inject_Z len) by exact (inject_Z_lt 0 len Hlen).
  split.
  - apply Qfloor_nonneg, Qmult_le_0_compat; [ exact Hv0 | now apply Qlt_le_weak ].
  - apply Qfloor_below.
    rewrite <- (Qmult_1_l (inject_Z len)) at 2.
    now apply Qmult_lt_compat_r.
Qed.

Lemma capped_floor_in_range (v : Q) (len : Z) :
  0 <= v → (0 < len)%Z →
  (0 ≤ Z.min (Qfloor (v * inject_Z len)) (len - 1) ≤ len - 1)%Z.
Proof.
  intros Hv Hlen.
  assert (0 ≤ Qfloor (v * inject_Z len))%Z; [| lia ].
  apply Qfloor_nonneg, Qmult_le_0_compat; [ exact Hv |].
  apply (inject_Z_le 0 len). lia.
Qed.

End ColourIndex.

Lemma nonempty_length {A} (l : list A) : l ≠ [] → (0 < Z.of_nat (length l))%Z.
Proof. destruct l; [ congruence | simpl; lia ]. Qed.

(** C8, the claim as worded fails.  With the six colours of the default
    scheme, bar 2 of 4 takes colour [floor ((2/4) * 6) = 3] where the
    worded formula gives [floor ((2/4) * 5) = 2]; and in the geometric
    mode a band whose average is -1/2 (readings of -150 dB) gets index
    -3, below the valid range. *)
Lemma color_index_not_as_worded :
  let colors := VisualizationContext.colors VisualizationContext.defaultScheme in
  BarVisualizer.colorSlot 2 4 colors = Some 3%Z
  ∧ BarVisualizer.colorSlot 2 4 colors ≠ Some (Spec.colorIndex (2 # 4) colors)
  ∧ GeometricVisualizer.colorSlot (-1 # 2) colors = (-3)%Z
  ∧ ¬ (0 ≤ GeometricVisualizer.colorSlot (-1 # 2) colors)%Z.
Proof.
  split; [ reflexivity |]. split; [ vm_compute; discriminate |].
  split; [ reflexivity |]. vm_compute. intros H. now apply H.
Qed.

(** C8, as the code has it.  The index is
    [floor (drivingValue * colors.length)]: the bar mode takes it modulo
    [colors.length], which changes nothing for a bar [i < numBands] and
    leaves it in [0, colors.length - 1]; the particle and geometric modes
    cap it from above by [colors.length - 1], which leaves it in
    [0, colors.length - 1] when the driving value is not negative. *)
Theorem color_index_scaled_by_length (i : nat) (numBands : Z) (v : Q)
    (colors : list string) :
  let len := Z.of_nat (length colors) in
  BarVisualizer.colorIndex i numBands colors
  = Qfloor ((inject_Z (Z.of_nat i) / inject_Z numBands) * inject_Z len)
  ∧ ParticleVisualizer.colorSlot v colors
    = Z.min (Qfloor (v * inject_Z len)) (len - 1)
  ∧ GeometricVisualizer.colorSlot v colors
    = Z.min (Qfloor (v * inject_Z len)) (len - 1)
  ∧ (colors ≠ [] → (0 < numBands)%Z → (Z.of_nat i < numBands)%Z →
       BarVisualizer.colorSlot i numBands colors
       = Some (BarVisualizer.colorIndex i numBands colors)
       ∧ (0 ≤ BarVisualizer.colorIndex i numBands colors ≤ len - 1)%Z)
  ∧ (colors ≠ [] → (0 <= v)%Q →
       (0 ≤ ParticleVisualizer.colorSlot v colors ≤ len - 1)%Z
       ∧ (0 ≤ GeometricVisualizer.colorSlot v colors ≤ len - 1)%Z).
Proof.
  intros len. repeat (split; [ reflexivity |]). split.
  - intros Hne Hn Hi.
    pose proof (nonempty_length colors Hne) as Hlen.
    destruct (fraction_bounds i numBands Hn Hi) as [H0 H1].
    pose proof (scaled_fraction_floor _ _ H0 H1 Hlen) as Hfl.
    unfold BarVisualizer.colorSlot.
    fold (BarVisualizer.colorIndex i numBands colors) in Hfl.
    destruct colors as [|c colors]; [ congruence |].
    rewrite Z.rem_small by (fold len; lia).
    split; [ reflexivity | exact Hfl ].
  - intros Hne Hv.
    pose proof (nonempty_length colors Hne) as Hlen.
    split; apply capped_floor_in_range; assumption.
Qed.

(** [color_index_scaled_by_length] for bar 5 of 8 and a driving value of
    3/4 over three colours. *)
Lemma color_index_scaled_by_length_witness :
  BarVisualizer.colorSlot 5 8 ["#ff0000"; "#00ff00"; "#0000ff"]
  = Some (BarVisualizer.colorIndex 5 8 ["#ff0000"; "#00ff00"; "#0000ff"])
  ∧ (0 ≤ ParticleVisualizer.colorSlot (3 # 4) ["#ff0000"; "#00ff00"; "#0000ff"] ≤ 2)%Z.
Proof.
  pose proof (color_index_scaled_by_length 5 8 (3 # 4)
                ["#ff0000"; "#00ff00"; "#0000ff"]) as (_ & _ & _ & Hbar & Hcap).
  split.
  - apply Hbar; [ discriminate | lia | lia ].
  - apply Hcap; [ discriminate | vm_compute; discriminate ].
Defined.

(** ** Waveform trace *)

Section Waveform.
Local Open Scope Q_scope.

Lemma clamp_symmetric (m x : Q) :
  0 <= m → - m <= Qmax (- m) (Qmin x m) ∧ Qmax (- m) (Qmin x m) <= m.
Proof.
  intros Hm. split.
  - apply Q.le_max_l.
  - apply Q.max_lub; [ qlra | apply Q.le_min_r ].
Qed.

(** The primary trace is clamped: whatever the sample and the
    sensitivity, its y-coordinate stays between the margins of a canvas
    at least two margins high. *)
Lemma traceY_within_margins (height : Q) (sensitivity : option Q) (sample : Q) :
  12 <= height →
  WaveformVisualizer.margin <= WaveformVisualizer.traceY height sensitivity sample
  ∧ WaveformVisualizer.traceY height sensitivity sample
    <= height - WaveformVisualizer.margin.
Proof.
  intros Hh. unfold WaveformVisualizer.traceY.
  set (a := WaveformVisualizer.amplitude height sensitivity).
  pose proof (clamp_symmetric (WaveformVisualizer.maxAmplitude height) (sample * a)) as Hc.
  revert Hc. generalize (Qmax (- WaveformVisualizer.maxAmplitude height)
                      (Qmin (sample * a) (WaveformVisualizer.maxAmplitude height))).
  unfold WaveformVisualizer.maxAmplitude, WaveformVisualizer.margin.
  intros c Hc. qconst.
  destruct Hc as [Hlo Hhi]; [ qlra |]. split; qlra.
Qed.

End Waveform.

Example traceY_full_scale :
  (WaveformVisualizer.traceY 720 (Some 100%Q) 1 == 714)%Q
  ∧ (WaveformVisualizer.traceY 720 (Some 100%Q) (-1) == 6)%Q.
Proof. split; reflexivity. Qed.

(** C5, evaluated where it fails.  On a 720-pixel canvas with the
    sensitivity slider at 50, a sample of 1/2 is drawn by the primary
    trace at y = 448.5, inside the margins, and by the mirror pass at
    y = -8640, far beyond the top margin at y = 6. *)
Theorem mirror_pass_leaves_canvas :
  ∃ y1 y2 : Q,
    WaveformVisualizer.renderedYs 720 50 (Some 1024%Z) [1 # 2]%Q = [y1; y2]
    ∧ (y1 == 897 # 2)%Q ∧ (y2 == -8640)%Q
    ∧ ¬ (WaveformVisualizer.margin <= y2)%Q.
Proof.
  eexists _, _. split; [ reflexivity |].
  split; [ reflexivity |]. split; [ reflexivity |].
  intros H. vm_compute in H. now apply H.
Qed.

(** ** Analyser accessors *)

Import AudioService.

Lemma getFrequencyData_result (s : State) :
  snd (getFrequencyData s)
  = JS.Returned
      match analyser s with
      | None => None
      | Some a =>
          if Spec.frequencyReadThrows a then None
          else match getValue a fft with
               | JS.Returned data => Some data
               | JS.Thrown => None
               end
      end.
Proof.
  unfold getFrequencyData, Spec.frequencyReadThrows.
  destruct (analyser s) as [a|]; [| reflexivity ].
  unfold on_analyser, JS.try_catch, JS.bind, JS.ret, set, readValue.
  destruct (analyserType a) eqn:Et; simpl.
  - rewrite Et. destruct (getValue a fft); reflexivity.
  - destruct (setThrows a fft); simpl; [ reflexivity |].
    destruct (getValue a fft); reflexivity.
Qed.

Lemma getWaveformData_result (s : State) :
  snd (getWaveformData s)
  = JS.Returned
      match analyser s with
      | None => None
      | Some a =>
          if Spec.waveformReadThrows a then None
          else match getValue a waveform with
               | JS.Returned data => Some data
               | JS.Thrown => None
               end
      end.
Proof.
  unfold getWaveformData, Spec.waveformReadThrows.
  destruct (analyser s) as [a|]; [| reflexivity ].
  unfold on_analyser, JS.try_catch, JS.bind, JS.ret, set, readValue.
  destruct (setThrows a waveform); simpl; [ reflexivity |].
  destruct (getValue a waveform); simpl; [| reflexivity ].
  destruct (setThrows a fft); reflexivity.
Qed.

(** C7, the claim as worded fails.  Straight after construction no
    source has been started, yet with the analyser in place both
    accessors hand back the buffers the analyser reads, not [null]. *)
Lemma data_returned_without_source :
  let s := Examples.freshService in
  currentSource s = None ∧ isPlaying s = false
  ∧ snd (getFrequencyData s) = JS.Returned (Some (repeat (-50)%Q 12))
  ∧ snd (getWaveformData s) = JS.Returned (Some [1 # 2; -1 # 2]%Q).
Proof. repeat split. Qed.

(** C7, as the code has it.  Neither accessor ever throws, and neither
    looks at the current source: each returns [null] exactly when the
    service has no analyser or the read of the analyser throws (and is
    caught), and otherwise returns the buffer read. *)
Theorem analyser_data_null_iff (s : State) :
  ∃ frequencyData waveformData : option (list Q),
    snd (getFrequencyData s) = JS.Returned frequencyData
    ∧ snd (getWaveformData s) = JS.Returned waveformData
    ∧ (frequencyData = None
       ↔ match analyser s with
         | None => True
         | Some a => Spec.frequencyReadThrows a = true
         end)
    ∧ (waveformData = None
       ↔ match analyser s with
         | None => True
         | Some a => Spec.waveformReadThrows a = true
         end)
    ∧ (∀ a data, analyser s = Some a → Spec.frequencyReadThrows a = false →
         getValue a fft = JS.Returned data → frequencyData = Some data)
    ∧ (∀ a data, analyser s = Some a → Spec.waveformReadThrows a = false →
         getValue a waveform = JS.Returned data → waveformData = Some data).
Proof.
  eexists _, _.
  split; [ apply getFrequencyData_result |].
  split; [ apply getWaveformData_result |].
  destruct (analyser s) as [a|]; [| repeat split; intros; discriminate ].
  unfold Spec.frequencyReadThrows, Spec.waveformReadThrows.
  repeat split.
  - destruct (analyserType a), (setThrows a fft), (getValue a fft);
      simpl; intros; congruence.
  - destruct (analyserType a), (setThrows a fft), (getValue a fft);
      simpl; intros; congruence.
  - destruct (setThrows a waveform), (setThrows a fft), (getValue a waveform);
      simpl; intros; congruence.
  - destruct (setThrows a waveform), (setThrows a fft), (getValue a waveform);
      simpl; intros; congruence.
  - intros a' data [= <-].
    destruct (analyserType a), (setThrows a fft), (getValue a fft);
      simpl; intros; congruence.
  - intros a' data [= <-].
    destruct (setThrows a waveform), (setThrows a fft), (getValue a waveform);
      simpl; intros; congruence.
Qed.

(** [analyser_data_null_iff] on the freshly constructed service. *)
Lemma analyser_data_null_iff_witness :
  snd (getFrequencyData Examples.freshService)
  = JS.Returned (Some (repeat (-50)%Q 12)).
Proof.
  destruct (analyser_data_null_iff Examples.freshService)
    as (f & w & Hf & _ & _ & _ & Hdata & _).
  rewrite Hf. f_equal. eapply Hdata; reflexivity.
Defined.

(** ** Rounding to doubles *)

Section Rounding.
Local Open Scope Q_scope.

Lemma roundEven_close (q : Q) :
  - (1 # 2) <= inject_Z (JS.roundEven q) - q <= 1 # 2.
Proof.
  unfold JS.roundEven.
  pose proof (Qfloor_le q) as Hlo. pose proof (Qlt_floor q) as Hhi.
  rewrite inject_Z_plus in Hhi. change (inject_Z 1) with 1 in Hhi.
  destruct (q - inject_Z (Qfloor q) ?= 1 # 2) eqn:E.
  - apply Qeq_alt in E. destruct (Z.even (Qfloor q)).
    + qlra.
    + rewrite inject_Z_plus. change (inject_Z 1) with 1. qlra.
  - apply Qlt_alt in E. qlra.
  - apply Qgt_alt in E. rewrite inject_Z_plus. change (inject_Z 1) with 1. qlra.
Qed.

Lemma pow2_pos (e : Z) : 0 < 2 ^ e.
Proof. now apply Qpower_0_lt. Qed.

Lemma pow2_add (a b : Z) : 2 ^ (a + b) == 2 ^ a * 2 ^ b.
Proof. apply Qpower_plus. discriminate. Qed.

Lemma pow2_log2 (n : Z) :
  (0 < n)%Z → 2 ^ Z.log2 n <= inject_Z n ∧ inject_Z n < 2 ^ (Z.log2 n + 1).
Proof.
  intros Hn. destruct (Z.log2_spec n Hn) as [Hlo Hhi].
  pose proof (Z.log2_nonneg n) as H0.
  split.
  - rewrite <- (Zpower_Qpower 2) by exact H0. now rewrite <- Zle_Qle.
  - rewrite <- (Zpower_Qpower 2) by lia. rewrite <- Zlt_Qlt.
    now rewrite <- Z.add_1_r in Hhi.
Qed.

Lemma mult_le_l (x y z : Q) : 0 <= z → x <= y → z * x <= z * y.
Proof.
  intros Hz Hxy. rewrite !(Qmult_comm z). now apply Qmult_le_compat_r.
Qed.

(** The unit in the last place brackets the number: the significand has
    53 bits. *)
Lemma ulp_bracket (a : Q) :
  0 < a →
  2 ^ 52 * 2 ^ JS.ulpExponent a <= a ∧ a < 2 ^ 53 * 2 ^ JS.ulpExponent a.
Proof.
  intros Ha. unfold JS.ulpExponent.
  destruct a as [n d]. cbn [Qnum Qden].
  assert (Hn : (0 < n)%Z) by (unfold Qlt in Ha; simpl in Ha; lia).
  destruct (pow2_log2 n Hn) as [Hn1 Hn2].
  destruct (pow2_log2 (Zpos d) eq_refl) as [Hd1 Hd2].
  set (ln := Z.log2 n) in *. set (ld := Z.log2 (Zpos d)) in *.
  set (e := (ln - ld - 53)%Z).
  pose proof (Qmake_Qdiv n d) as Hq.
  assert (HD : 0 < inject_Z (Zpos d)) by reflexivity.
  set (N := inject_Z n) in *. set (D := inject_Z (Zpos d)) in *.
  assert (HaD : (n # d) * D == N)
    by (rewrite Hq; field; intros H; rewrite H in HD; discriminate).
  clearbody N D. clear Hq.
  generalize dependent (n # d). intros a Ha HaD.
  pose proof (pow2_pos (e + 52)) as Hp.
  pose proof (pow2_pos (e + 54)) as Hp'.
  assert (Hlow : 2 ^ (e + 52) * 2 ^ (ld + 1) == 2 ^ ln)
    by (rewrite <- pow2_add; f_equiv; unfold e; lia).
  assert (Hupp : 2 ^ (e + 54) * 2 ^ ld == 2 ^ (ln + 1))
    by (rewrite <- pow2_add; f_equiv; unfold e; lia).
  assert (Hlo : 2 ^ (e + 52) < a).
  { apply Qnot_le_lt. intros Hle.
    assert (a * D <= 2 ^ (e + 52) * D)
      by (apply Qmult_le_compat_r; [ exact Hle | qlra ]).
    assert (2 ^ (e + 52) * D < 2 ^ (e + 52) * 2 ^ (ld + 1))
      by (apply Qmult_lt_l; assumption).
    qlra. }
  assert (Hhi : a < 2 ^ (e + 54)).
  { apply Qnot_le_lt. intros Hle.
    assert (2 ^ (e + 54) * D <= a * D)
      by (apply Qmult_le_compat_r; [ exact Hle | qlra ]).
    assert (2 ^ (e + 54) * 2 ^ ld <= 2 ^ (e + 54) * D)
      by (apply Qmult_le_l; assumption).
    qlra. }
  destruct (Qle_bool (2 ^ (e + 53)) a) eqn:E.
  - apply Qle_bool_iff in E.
    rewrite <- !pow2_add.
    replace (52 + (e + 1))%Z with (e + 53)%Z by lia.
    replace (53 + (e + 1))%Z with (e + 54)%Z by lia.
    split; assumption.
  - assert (a < 2 ^ (e + 53)).
    { apply Qnot_le_lt. intros H. apply Qle_bool_iff in H. congruence. }
    rewrite <- !pow2_add.
    replace (52 + e)%Z with (e + 52)%Z by lia.
    replace (53 + e)%Z with (e + 53)%Z by lia.
    split; [ now apply Qlt_le_weak | assumption ].
Qed.

(** Rounding a non-negative number moves it by at most half a unit in
    the last place, a relative [2^-53]. *)
Lemma double_close (x : Q) :
  0 <= x →
  (1 - (1 # 2 ^ 53)) * x <= JS.double x <= (1 + (1 # 2 ^ 53)) * x.
Proof.
  intros Hx. unfold JS.double. rewrite Qred_correct.
  destruct x as [n d]. destruct n as [|n|n].
  - cbn [Qnum Z.sgn]. change (inject_Z 0) with 0.
    rewrite Qmult_0_l. split; unfold Qle; simpl; lia.
  - change (Qabs (Zpos n # d)) with (Zpos n # d).
    cbn [Qnum Z.sgn]. change (inject_Z 1) with 1.
    set (x := Zpos n # d) in *.
    assert (Hpos : 0 < x) by reflexivity.
    destruct (ulp_bracket x Hpos) as [Hlo _].
    pose proof (pow2_pos (JS.ulpExponent x)) as Hu.
    pose proof (roundEven_close (x / 2 ^ JS.ulpExponent x)) as Hr.
    set (U := 2 ^ JS.ulpExponent x) in *.
    set (m := inject_Z (JS.roundEven (x / U))) in *.
    assert (Hy : x / U * U == x) by (field; qlra).
    set (y := x / U) in *. clearbody y m U.
    assert (0 <= (m - y + (1 # 2)) * U) by (apply Qmult_le_0_compat; qlra).
    assert (0 <= ((1 # 2) - (m - y)) * U) by (apply Qmult_le_0_compat; qlra).
    change (2 ^ 52) with 4503599627370496 in Hlo.
    change (1 # 2 ^ 53) with (1 # 9007199254740992).
    split.
    + assert ((m - y + (1 # 2)) * U == m * U - x + (1 # 2) * U)
        by (rewrite <- Hy; ring).
      qlra.
    + assert (((1 # 2) - (m - y)) * U == x - m * U + (1 # 2) * U)
        by (rewrite <- Hy; ring).
      qlra.
  - exfalso. unfold Qle in Hx. simpl in Hx. lia.
Qed.

Lemma pow_succ (q : Q) (k : nat) : q ^ Z.of_nat (S k) == q ^ Z.of_nat k * q.
Proof.
  rewrite Nat2Z.inj_succ, <- Z.add_1_r.
  rewrite Qpower_plus' by lia. now rewrite Qpower_1_r.
Qed.

Lemma pow_unit_interval (q : Q) (k : nat) :
  0 <= q <= 1 → 0 <= q ^ Z.of_nat k <= 1.
Proof.
  intros Hq. induction k as [|k IH].
  - simpl. qlra.
  - rewrite pow_succ.
    assert (0 <= q ^ Z.of_nat k * q) by (apply Qmult_le_0_compat; qlra).
    assert (q ^ Z.of_nat k * q <= 1 * q) by (apply Qmult_le_compat_r; qlra).
    qlra.
Qed.

Lemma pow_antitone (q : Q) (j k : nat) :
  0 <= q <= 1 → (j <= k)%nat → q ^ Z.of_nat k <= q ^ Z.of_nat j.
Proof.
  intros Hq Hjk. induction Hjk as [|k Hjk IH]; [ qlra |].
  rewrite pow_succ.
  pose proof (pow_unit_interval q k Hq).
  assert (q ^ Z.of_nat k * q <= q ^ Z.of_nat k * 1) by (apply mult_le_l; qlra).
  qlra.
Qed.

(** Eleven roundings, ten additions and a division, stay within a
    relative [2^-49]. *)
Lemma rounding_eleven_times :
  1 - (1 # 2 ^ 49) <= (1 - (1 # 2 ^ 53)) ^ 11
  ∧ (1 + (1 # 2 ^ 53)) ^ 11 <= 1 + (1 # 2 ^ 49).
Proof. split; vm_compute; discriminate. Qed.

(** The literal [0.15], and two numbers that are doubles already. *)
Example double_fifteen_hundredths :
  JS.double (15 # 100) = 5404319552844595 # 36028797018963968.
Proof. vm_compute. reflexivity. Qed.

Example double_exact : JS.double (3 # 2) = 3 # 2 ∧ JS.double (-50) = -50.
Proof. split; vm_compute; reflexivity. Qed.

(** A tie goes to the even significand: [2^53 + 1] is rounded down,
    [2^53 + 3] up. *)
Example double_ties_to_even :
  JS.double 9007199254740993 = 9007199254740992
  ∧ JS.double 9007199254740995 = 9007199254740996.
Proof. split; vm_compute; reflexivity. Qed.

End Rounding.

(** ** Beat detection *)

Section Beat.
Local Open Scope Q_scope.

Lemma sumAbs_nonneg (slice : list Q) : 0 <= Spec.sumAbs slice.
Proof.
  induction slice as [|v slice IH]; simpl; [ qlra |].
  pose proof (Qabs_nonneg v). qlra.
Qed.

(** The sum accumulated by [reduce], against the exact sum: each of the
    additions can lose a relative [2^-53]. *)
Lemma reduce_abs_close (slice : list Q) (acc : Q) :
  0 <= acc →
  let sum := fold_left (λ sum value : Q, JS.add sum (Qabs value)) slice acc in
  let k := Z.of_nat (length slice) in
  (1 - (1 # 2 ^ 53)) ^ k * (acc + Spec.sumAbs slice) <= sum
  ∧ sum <= (1 + (1 # 2 ^ 53)) ^ k * (acc + Spec.sumAbs slice).
Proof.
  revert acc. induction slice as [|v slice IH]; intros acc Hacc.
  - simpl. qlra.
  - cbn zeta. cbn [fold_left length].
    pose proof (Qabs_nonneg v) as Hv.
    pose proof (sumAbs_nonneg slice) as Hs.
    assert (Hstep : 0 <= acc + Qabs v) by qlra.
    pose proof (double_close _ Hstep) as [Hlo Hhi].
    fold (JS.add acc (Qabs v)) in Hlo, Hhi.
    change (1 # 2 ^ 53) with (1 # 9007199254740992) in *.
    assert (Hacc' : 0 <= JS.add acc (Qabs v)) by qlra.
    specialize (IH _ Hacc'). cbn zeta in IH. destruct IH as [IHlo IHhi].
    rewrite !pow_succ.
    change (Spec.sumAbs (v :: slice)) with (Qabs v + Spec.sumAbs slice).
    set (lower := (1 - (1 # 9007199254740992)) ^ Z.of_nat (length slice)) in *.
    set (upper := (1 + (1 # 9007199254740992)) ^ Z.of_nat (length slice)) in *.
    assert (0 <= lower) by (apply Qpower_0_le; qlra).
    assert (0 <= upper) by (apply Qpower_0_le; qlra).
    set (a' := JS.add acc (Qabs v)) in *.
    set (result := fold_left _ slice a') in *.
    clearbody lower upper a' result.
    split.
    + assert (lower * ((1 - (1 # 9007199254740992))
                       * (acc + (Qabs v + Spec.sumAbs slice)))
              <= lower * (a' + Spec.sumAbs slice))
        by (apply mult_le_l; qlra).
      qlra.
    + assert (upper * (a' + Spec.sumAbs slice)
              <= upper * ((1 + (1 # 9007199254740992))
                          * (acc + (Qabs v + Spec.sumAbs slice))))
        by (apply mult_le_l; qlra).
      qlra.
Qed.

(** The mean computed by [detectBeat] over at most ten entries, against
    the exact mean. *)
Lemma average_close (slice : list Q) :
  slice ≠ [] → (length slice <= 10)%nat →
  ∃ mean : Q,
    average slice = Some mean
    ∧ (1 - (1 # 2 ^ 49)) * Spec.meanAbs slice <= mean
    ∧ mean <= (1 + (1 # 2 ^ 49)) * Spec.meanAbs slice.
Proof.
  intros Hne Hlen. unfold average, Spec.meanAbs.
  destruct (length slice) as [|k] eqn:Ek; [ destruct slice; simpl in *; congruence |].
  eexists. split; [ reflexivity |].
  pose proof (reduce_abs_close slice 0 ltac:(qlra)) as Hsum. cbn zeta in Hsum.
  rewrite Ek in Hsum. destruct Hsum as [Hlo Hhi].
  pose proof (sumAbs_nonneg slice) as Hs.
  set (sum := fold_left _ slice 0) in *.
  set (exact := Spec.sumAbs slice) in *.
  destruct rounding_eleven_times as [Hl11 Hu11].
  assert (Hl : 0 <= 1 - (1 # 2 ^ 53) <= 1) by (split; vm_compute; discriminate).
  assert (Hu : 1 <= 1 + (1 # 2 ^ 53)) by (vm_compute; discriminate).
  pose proof (pow_antitone _ (S (S k)) 11 Hl ltac:(lia)) as Hlk.
  pose proof (Qpower_le_compat_l _ (Z.of_nat (S (S k))) 11 ltac:(lia) Hu) as Huk.
  rewrite (pow_succ _ (S k)) in Hlk. rewrite (pow_succ _ (S k)) in Huk.
  change (Z.of_nat 11) with 11%Z in Hlk.
  pose proof (pow_unit_interval _ (S k) Hl) as [Hl0 _].
  set (lower := (1 - (1 # 2 ^ 53)) ^ Z.of_nat (S k)) in *.
  set (upper := (1 + (1 # 2 ^ 53)) ^ Z.of_nat (S k)) in *.
  assert (Hn : 0 < inject_Z (Z.of_nat (S k))) by (rewrite <- (Zlt_Qlt 0); lia).
  assert (Hc : 0 < / inject_Z (Z.of_nat (S k))) by now apply Qinv_lt_0_compat.
  unfold JS.div, Qdiv. set (c := / inject_Z (Z.of_nat (S k))) in *.
  assert (Hsum0 : 0 <= sum).
  { assert (0 <= lower * (0 + exact)) by (apply Qmult_le_0_compat; qlra). qlra. }
  assert (Hq : 0 <= sum * c) by (apply Qmult_le_0_compat; qlra).
  pose proof (double_close _ Hq) as [Hdlo Hdhi].
  set (mean := JS.double (sum * c)) in *.
  assert (Hm : 0 <= exact * c) by (apply Qmult_le_0_compat; qlra).
  set (l11 := (1 - (1 # 2 ^ 53)) ^ 11) in *.
  set (u11 := (1 + (1 # 2 ^ 53)) ^ 11) in *.
  change (1 # 2 ^ 53) with (1 # 9007199254740992) in *.
  change (1 # 2 ^ 49) with (1 # 562949953421312) in *.
  clearbody lower upper sum exact c mean l11 u11.
  assert (Hlc : lower * (0 + exact) * c <= sum * c)
    by (apply Qmult_le_compat_r; qlra).
  assert (Huc : sum * c <= upper * (0 + exact) * c)
    by (apply Qmult_le_compat_r; qlra).
  split.
  - assert ((1 - (1 # 9007199254740992)) * (lower * (0 + exact) * c)
            <= (1 - (1 # 9007199254740992)) * (sum * c))
      by (apply mult_le_l; qlra).
    assert (l11 * (exact * c) <= lower * (1 - (1 # 9007199254740992)) * (exact * c))
      by (apply Qmult_le_compat_r; qlra).
    assert ((1 - (1 # 562949953421312)) * (exact * c) <= l11 * (exact * c))
      by (apply Qmult_le_compat_r; qlra).
    qlra.
  - assert ((1 + (1 # 9007199254740992)) * (sum * c)
            <= (1 + (1 # 9007199254740992)) * (upper * (0 + exact) * c))
      by (apply mult_le_l; qlra).
    assert (upper * (1 + (1 # 9007199254740992)) * (exact * c) <= u11 * (exact * c))
      by (apply Qmult_le_compat_r; qlra).
    assert (u11 * (exact * c) <= (1 + (1 # 562949953421312)) * (exact * c))
      by (apply Qmult_le_compat_r; qlra).
    qlra.
Qed.

Lemma gt_true_iff (a b : Q) : JS.gt a b = true ↔ b < a.
Proof.
  unfold JS.gt. rewrite negb_true_iff.
  destruct (Qle_bool a b) eqn:E.
  - apply Qle_bool_iff in E. split; [ discriminate |].
    intros H. exfalso. exact (Qlt_not_le _ _ H E).
  - split; [ intros _ | reflexivity ].
    apply Qnot_le_lt. intros H. apply Qle_bool_iff in H. congruence.
Qed.

Lemma take_nonempty {A} (n : nat) (l : list A) : take (S n) l ≠ [] ↔ l ≠ [].
Proof. destruct l; simpl; split; congruence. Qed.

Lemma beatOf_true_iff (frequencyData : list Q) (threshold : Q) :
  beatOf frequencyData threshold = true
  ↔ ∃ mean : Q, average (take 10 frequencyData) = Some mean ∧ threshold < mean.
Proof.
  unfold beatOf, exceeds.
  destruct (average (take 10 frequencyData)) as [mean|].
  - rewrite gt_true_iff. split.
    + intros H. now exists mean.
    + intros (mean' & [= <-] & H). exact H.
  - split; [ discriminate | intros (mean & Hm & _); discriminate ].
Qed.

(** Steady bass at -50 dB is a beat at the default threshold; an empty
    buffer is not one even below zero, its mean being [NaN]. *)
Example beatOf_steady_bass :
  beatOf (repeat (-50) 12) (JS.double (15 # 100)) = true.
Proof. vm_compute. reflexivity. Qed.

Example beatOf_empty_buffer : beatOf [] (-1) = false.
Proof. reflexivity. Qed.

(** On the threshold the rounded mean decides.  One reading of 1.5 and
    nine of 0 give the sum 1.5 and the quotient [0.15], the double that
    the default threshold is: no beat, although the exact mean 15/100
    lies above that double.  Likewise for 1, 0, 0 at the double nearest
    to 1/3. *)
Example beatOf_mean_on_threshold :
  beatOf ((3 # 2) :: repeat 0 9) (JS.double (15 # 100)) = false
  ∧ JS.double (15 # 100) < Spec.meanAbs ((3 # 2) :: repeat 0 9)
  ∧ beatOf [1; 0; 0] (JS.double (1 # 3)) = false
  ∧ JS.double (1 # 3) < Spec.meanAbs [1; 0; 0].
Proof. repeat split; vm_compute; reflexivity. Qed.

Lemma detectBeat_result (threshold : option Q) (s : State) :
  snd (detectBeat threshold s)
  = JS.Returned
      match snd (getFrequencyData s) with
      | JS.Returned (Some frequencyData) =>
          beatOf frequencyData (JS.nullish threshold (JS.double (15 # 100)))
      | _ => false
      end.
Proof.
  pose proof (getFrequencyData_result s) as Hr.
  unfold detectBeat, JS.bind.
  destruct (getFrequencyData s) as [s' r]. simpl in *. subst r.
  destruct (analyser s) as [a|]; [| reflexivity ].
  destruct (Spec.frequencyReadThrows a); [ reflexivity |].
  destruct (getValue a fft); reflexivity.
Qed.

End Beat.

(** C3. [detectBeat] never throws.  With the threshold defaulting to
    0.15, it answers [true] exactly when the buffer just read is not
    empty and the mean of the absolute values of its first ten entries,
    as the doubles of the program compute it, exceeds the threshold; it
    answers [false] when there is no buffer ([null]) and when the buffer
    has length zero.  The computed mean is within a relative [2^-49] of
    the exact mean, so the answer is that of the exact mean whenever the
    exact mean is not that close to the threshold. *)
Theorem detectBeat_mean_over_threshold (s : State) (threshold : option Q) :
  let t := match threshold with
           | Some t => t
           | None => JS.double (15 # 100)
           end in
  ∃ (frequencyData : option (list Q)) (beat : bool),
    snd (getFrequencyData s) = JS.Returned frequencyData
    ∧ snd (detectBeat threshold s) = JS.Returned beat
    ∧ match frequencyData with
      | None => beat = false
      | Some [] => beat = false
      | Some data =>
          let exact := Spec.meanAbs (take 10 data) in
          ∃ mean : Q,
            average (take 10 data) = Some mean
            ∧ (beat = true ↔ (t < mean)%Q)
            ∧ ((1 - (1 # 2 ^ 49)) * exact <= mean <= (1 + (1 # 2 ^ 49)) * exact)%Q
            ∧ ((t < (1 - (1 # 2 ^ 49)) * exact)%Q → beat = true)
            ∧ (((1 + (1 # 2 ^ 49)) * exact <= t)%Q → beat = false)
      end.
Proof.
  intros t. eexists _, _.
  split; [ apply getFrequencyData_result |].
  split; [ apply detectBeat_result |].
  rewrite getFrequencyData_result.
  destruct (analyser s) as [a|]; [| reflexivity ].
  destruct (Spec.frequencyReadThrows a); [ reflexivity |].
  destruct (getValue a fft) as [data|]; [| reflexivity ].
  destruct data as [|v rest]; [ reflexivity |].
  cbv zeta.
  destruct (average_close (take 10 (v :: rest))) as (mean & Hmean & Hlo & Hhi);
    [ discriminate | rewrite length_take; lia |].
  assert (Ht : JS.nullish threshold (JS.double (15 # 100)) = t)
    by (destruct threshold; reflexivity).
  rewrite Ht.
  assert (Hbeat : beatOf (v :: rest) t = true ↔ (t < mean)%Q).
  { rewrite beatOf_true_iff. split.
    - intros (mean' & Hm & H). congruence.
    - intros H. now exists mean. }
  exists mean. split; [ exact Hmean |]. split; [ exact Hbeat |].
  split; [ split; assumption |]. split.
  - intros H. apply Hbeat. eapply Qlt_le_trans; eassumption.
  - intros H. destruct (beatOf (v :: rest) t) eqn:E; [| reflexivity ].
    exfalso. apply (Qlt_irrefl t).
    eapply Qlt_le_trans; [ now apply Hbeat |].
    eapply Qle_trans; eassumption.
Qed.

(** C4. The decision is a function of the buffer read and the
    threshold: services whose analysers read the same buffer answer
    alike, and it depends on the first ten entries only.  It is antitone
    in the threshold: a beat at [t2] is a beat at every [t1 <= t2]. *)
Theorem detectBeat_deterministic_antitone (s1 s2 : State) (t1 t2 : Q) :
  (snd (getFrequencyData s1) = snd (getFrequencyData s2) →
     snd (detectBeat (Some t1) s1) = snd (detectBeat (Some t1) s2))
  ∧ (∀ d1 d2 : list Q, take 10 d1 = take 10 d2 → (t1 == t2)%Q →
       beatOf d1 t1 = beatOf d2 t2)
  ∧ ((t1 <= t2)%Q →
       snd (detectBeat (Some t2) s1) = JS.Returned true →
       snd (detectBeat (Some t1) s1) = JS.Returned true)
  ∧ (∀ d : list Q, (t1 <= t2)%Q → beatOf d t2 = true → beatOf d t1 = true).
Proof.
  assert (Hanti : ∀ d : list Q, (t1 <= t2)%Q →
                    beatOf d t2 = true → beatOf d t1 = true).
  { intros d Ht. rewrite !beatOf_true_iff. intros (mean & Hmean & H).
    exists mean. split; [ exact Hmean |].
    eapply Qle_lt_trans; eassumption. }
  split; [| split; [| split; [| exact Hanti ]]].
  - intros Heq. rewrite !detectBeat_result, Heq. reflexivity.
  - intros d1 d2 Hd Ht. unfold beatOf. rewrite Hd.
    destruct (average (take 10 d2)) as [a|]; [| reflexivity ].
    simpl. unfold JS.gt. f_equal.
    destruct (Qle_bool a t1) eqn:E1, (Qle_bool a t2) eqn:E2; try reflexivity.
    + apply Qle_bool_iff in E1. rewrite Ht in E1. apply Qle_bool_iff in E1. congruence.
    + apply Qle_bool_iff in E2. rewrite <- Ht in E2. apply Qle_bool_iff in E2. congruence.
  - intros Ht. rewrite !detectBeat_result. simpl JS.nullish.
    destruct (snd (getFrequencyData s1)) as [[d|]|]; try discriminate.
    intros [= H]. f_equal. now apply Hanti.
Qed.

(** [detectBeat_deterministic_antitone] on the freshly constructed
    service, whose bass bins average 50: a beat at threshold 1/2 is a
    beat at the default threshold. *)
Lemma detectBeat_deterministic_antitone_witness :
  snd (detectBeat (Some (15 # 100)%Q) Examples.freshService) = JS.Returned true.
Proof.
  pose proof (detectBeat_deterministic_antitone
                Examples.freshService Examples.freshService (15 # 100) (1 # 2))
    as (_ & _ & Hanti & _).
  apply Hanti; [ vm_compute; discriminate | reflexivity ].
Defined.

(** ** Seeking *)

Section Seek.
Local Open Scope Q_scope.

Lemma clamp_between (lo hi x : Q) :
  lo <= hi → lo <= Qmax lo (Qmin x hi) ∧ Qmax lo (Qmin x hi) <= hi.
Proof.
  intros H. split.
  - apply Q.le_max_l.
  - apply Q.max_lub; [ exact H | apply Q.le_min_r ].
Qed.

Lemma clamp_inside (lo hi x : Q) :
  lo <= x → x <= hi → Qmax lo (Qmin x hi) == x.
Proof.
  intros Hlo Hhi. rewrite (Q.min_l x hi Hhi). now apply Q.max_r.
Qed.

Lemma clamp_below (lo hi x : Q) :
  lo <= hi → x < lo → Qmax lo (Qmin x hi) == lo.
Proof.
  intros H Hx. apply Q.max_l.
  eapply Qle_trans; [ apply Q.le_min_l | now apply Qlt_le_weak ].
Qed.

Lemma clamp_above (lo hi x : Q) :
  lo <= hi → hi < x → Qmax lo (Qmin x hi) == hi.
Proof.
  intros H Hx. rewrite (Q.min_r x hi) by now apply Qlt_le_weak.
  now apply Q.max_r.
Qed.

Lemma with_player_same (s : State) (p : Player) :
  player s = Some p → with_player s (Some p) = s.
Proof. destruct s; simpl; intros ->; reflexivity. Qed.

End Seek.

(** C10. [seekTo] never throws.  The position it hands to the player is
    the request clamped to [0, duration], where the duration counts as 0
    when the player has no buffer: a negative request seeks to 0, a
    request past the end seeks to the duration, any other is kept.
    Without a player, and when the player's seek throws, the service is
    left as it was. *)
Theorem seekTo_clamps_to_duration (s : State) (seconds : Q) :
  let duration := match getDuration s with
                  | Some d => if Qeq_bool d 0 then 0%Q else d
                  | None => 0%Q
                  end in
  let target := validPosition s seconds in
  snd (seekTo seconds s) = JS.Returned tt
  ∧ (player s = None → fst (seekTo seconds s) = s)
  ∧ (∀ p, player s = Some p → seekThrows p = true → fst (seekTo seconds s) = s)
  ∧ (∀ p, player s = Some p → seekThrows p = false →
       player (fst (seekTo seconds s))
       = Some {| buffer := buffer p; position := target; seekThrows := false |})
  ∧ target = Qmax 0 (Qmin seconds duration)
  ∧ ((0 <= duration)%Q →
       (0 <= target <= duration)%Q
       ∧ ((seconds < 0)%Q → (target == 0)%Q)
       ∧ ((duration < seconds)%Q → (target == duration)%Q)
       ∧ ((0 <= seconds <= duration)%Q → (target == seconds)%Q)).
Proof.
  intros duration target.
  split; [| split; [| split; [| split; [| split ]]]].
  - unfold seekTo. destruct (player s) as [p|]; [| reflexivity ].
    unfold JS.try_catch, seek, JS.ret. destruct (seekThrows p); reflexivity.
  - unfold seekTo. intros ->. reflexivity.
  - unfold seekTo. intros p Hp Hthrow. rewrite Hp.
    unfold JS.try_catch, seek, JS.ret. rewrite Hthrow. simpl.
    now apply with_player_same.
  - unfold seekTo. intros p Hp Hthrow. rewrite Hp.
    unfold JS.try_catch, seek, JS.ret. rewrite Hthrow. reflexivity.
  - reflexivity.
  - intros Hd. subst target. unfold validPosition, JS.or_default, JS.is_zero.
    fold duration.
    split; [ now apply clamp_between |].
    split; [ intros Hs; now apply clamp_below |].
    split; [ intros Hs; now apply clamp_above |].
    intros [Hlo Hhi]. now apply clamp_inside.
Qed.

(** [seekTo_clamps_to_duration] on the loaded three-minute track, asked
    for a position ten minutes in. *)
Lemma seekTo_clamps_to_duration_witness :
  (validPosition Examples.loadedService 600 == 180)%Q
  ∧ player (fst (seekTo 600 Examples.loadedService))
    = Some {| buffer := Some 180%Q;
              position := validPosition Examples.loadedService 600;
              seekThrows := false |}.
Proof.
  pose proof (seekTo_clamps_to_duration Examples.loadedService 600)
    as (_ & _ & _ & Hseek & _ & Hclamp).
  split.
  - destruct Hclamp as (_ & _ & Habove & _); [ vm_compute; discriminate |].
    refine (Habove _). vm_compute. reflexivity.
  - exact (Hseek _ eq_refl eq_refl).
Defined.

(** ** Volume *)

Section Volume.
Local Open Scope R_scope.

Lemma clampedVolume_range (v : R) : 0 <= clampedVolume v <= 1.
Proof.
  unfold clampedVolume, Rmax, Rmin.
  destruct (Rle_dec 1 v); destruct (Rle_dec 0 _); rlra.
Qed.

Lemma clampedVolume_inside (v : R) : 0 <= v <= 1 → clampedVolume v = v.
Proof.
  intros Hv. unfold clampedVolume, Rmax, Rmin.
  destruct (Rle_dec 1 v); destruct (Rle_dec 0 _); rlra.
Qed.

Lemma decibelValue_positive (v : R) :
  0 < v <= 1 → decibelValue v = 20 * JS.log10 v.
Proof.
  intros Hv. unfold decibelValue.
  rewrite clampedVolume_inside by rlra.
  destruct (Rlt_dec 0 v); [ reflexivity | rlra ].
Qed.

Lemma decibelValue_zero : decibelValue 0 = -70.
Proof.
  unfold decibelValue. rewrite clampedVolume_inside by rlra.
  destruct (Rlt_dec 0 0); [ rlra | reflexivity ].
Qed.

Lemma log10_increasing (x y : R) : 0 < x → x < y → JS.log10 x < JS.log10 y.
Proof.
  intros Hx Hxy. unfold JS.log10, Rdiv.
  apply Rmult_lt_compat_r; [ apply Rinv_0_lt_compat, ln10_pos |].
  now apply ln_increasing.
Qed.

Lemma log10_1 : JS.log10 1 = 0.
Proof. unfold JS.log10. rewrite ln_1. unfold Rdiv. apply Rmult_0_l. Qed.

Lemma log10_ten_thousandth : JS.log10 (1 / 10000) = -4.
Proof.
  unfold JS.log10.
  replace (1 / 10000) with (/ 10 ^ 4) by (simpl; field).
  rewrite ln_Rinv by (simpl; rlra).
  rewrite ln_pow by rlra.
  pose proof ln10_pos. simpl INR. field. rlra.
Qed.

End Volume.

(** C6, evaluated where it fails.  The gain is meant to fall to a
    near-silent floor at volume 0 (the source says [Near-mute for zero]
    and [Map 0-1 to -40dB to 0dB]) and to grow with the volume, but the
    floor is applied at exactly 0 only.  On the service as constructed,
    [setVolume(0)] stores volume 0 at -70 dB, and [setVolume(0.0001)]
    stores volume 0.0001 at [20 * log10 0.0001 = -80] dB: the larger
    volume is the quieter, and lies below the muted setting. *)
Theorem setVolume_below_mute_floor :
  let muted := fst (setVolume 0 Examples.freshService) in
  let faint := fst (setVolume (1 / 10000) Examples.freshService) in
  getVolume muted = 0%R
  ∧ volumeNode muted = Some (-70)%R
  ∧ getVolume faint = (1 / 10000)%R
  ∧ volumeNode faint = Some (-80)%R
  ∧ (getVolume muted < getVolume faint)%R
  ∧ (decibelValue (1 / 10000) < decibelValue 0)%R.
Proof.
  assert (Hfaint : decibelValue (1 / 10000) = (-80)%R).
  { rewrite decibelValue_positive by rlra. rewrite log10_ten_thousandth. rlra. }
  cbv zeta. unfold setVolume, getVolume. simpl.
  rewrite !clampedVolume_inside by rlra.
  rewrite Hfaint, decibelValue_zero.
  repeat split; rlra.
Qed.

(** ** Settings store *)

Import VisualizationContext.

Lemma spread_lookup (prev updates : gmap string value) (key : string) :
  spread prev updates !! key
  = match updates !! key with
    | Some v => Some v
    | None => prev !! key
    end.
Proof.
  unfold spread. rewrite lookup_union.
  destruct (updates !! key), (prev !! key); reflexivity.
Qed.

Lemma spread_empty (prev : gmap string value) : spread prev ∅ = prev.
Proof. unfold spread. apply (left_id_L ∅ (∪)). Qed.

(** C9, the claim as worded fails.  After saving a preset and moving the
    sensitivity slider to 50, loading the preset puts the sensitivity
    back to 1: [loadPreset] changes the settings too. *)
Lemma loadPreset_changes_settings :
  let saved := savePreset "quiet" 1700000000000 initial in
  let moved := updateSettings {[ "sensitivity" := VNumber 50 ]} saved in
  let loaded := loadPreset "preset-1700000000000" moved in
  settings moved !! "sensitivity" = Some (VNumber 50)
  ∧ settings loaded !! "sensitivity" = Some (VNumber 1)
  ∧ settings loaded ≠ settings moved.
Proof.
  assert (H1 : settings (updateSettings {[ "sensitivity" := VNumber 50 ]}
                 (savePreset "quiet" 1700000000000 initial)) !! "sensitivity"
               = Some (VNumber 50)) by (vm_compute; reflexivity).
  assert (H2 : settings (loadPreset "preset-1700000000000"
                 (updateSettings {[ "sensitivity" := VNumber 50 ]}
                    (savePreset "quiet" 1700000000000 initial))) !! "sensitivity"
               = Some (VNumber 1)) by (vm_compute; reflexivity).
  split; [ exact H1 |]. split; [ exact H2 |].
  intros Heq. rewrite Heq, H1 in H2. discriminate.
Qed.

(** C9, as the code has it.  [updateSettings] replaces the settings by a
    new object in which every property named in the update has the
    update's value and every other property keeps its previous value;
    presets and colour schemes are untouched.  Of the other operations of
    the provider, [savePreset] and [addColorScheme] leave the settings as
    they are, and [loadPreset] replaces them by the snapshot of the first
    preset with the given id, or leaves them when there is none. *)
Theorem updateSettings_functional_merge (updates : gmap string value)
    (p : Provider) (key name id : string) (cs : list string) (now : Z) :
  settings (updateSettings updates p) !! key
  = match updates !! key with
    | Some v => Some v
    | None => settings p !! key
    end
  ∧ presets (updateSettings updates p) = presets p
  ∧ colorSchemes (updateSettings updates p) = colorSchemes p
  ∧ settings (savePreset name now p) = settings p
  ∧ settings (addColorScheme name cs now p) = settings p
  ∧ settings (loadPreset id p)
    = match find (λ q, bool_decide (preset_id q = id)) (presets p) with
      | Some preset => preset_settings preset
      | None => settings p
      end
  ∧ presets (savePreset name now p)
    = presets p ++ [ {| preset_id := "preset-" +:+ pretty now;
                        preset_name := name;
                        preset_settings := settings p |} ].
Proof.
  split; [ apply spread_lookup |].
  repeat (split; [ reflexivity |]).
  split.
  - unfold loadPreset. now destruct (find _ (presets p)).
  - unfold savePreset. simpl. now rewrite spread_empty.
Qed.

(** * Further properties of the code *)

(** ** Bar visualizer: bands and layout *)

Section BarBands.
Local Open Scope R_scope.

Lemma pow10_log10 (x : R) : 0 < x → JS.pow10 (JS.log10 x) = x.
Proof.
  intros Hx. unfold JS.pow10, JS.log10, Rpower.
  replace (ln x / ln 10 * ln 10) with (ln x)
    by (pose proof ln10_pos; field; rlra).
  now apply exp_ln.
Qed.

Lemma freq_lowest (n : Z) : BarVisualizer.freq n 0 = 20.
Proof.
  unfold BarVisualizer.freq, BarVisualizer.logFreq. simpl INR.
  replace (BarVisualizer.logMin + 0 / IZR n * BarVisualizer.logRange)
    with BarVisualizer.logMin by (unfold Rdiv; ring).
  unfold BarVisualizer.logMin, BarVisualizer.minFreq. apply pow10_log10. rlra.
Qed.

Lemma freq_below_maxFreq (n : Z) (i : nat) :
  (0 < n)%Z → (Z.of_nat i < n)%Z → BarVisualizer.freq n i < 20000.
Proof.
  intros Hn Hi.
  rewrite <- (pow10_log10 20000) by rlra.
  unfold BarVisualizer.freq. apply pow10_increasing.
  unfold BarVisualizer.logFreq.
  pose proof logRange_pos as Hr.
  assert (Hfrac : INR i / IZR n < 1).
  { apply Rmult_lt_reg_r with (IZR n); [ now apply IZR_lt |].
    unfold Rdiv. rewrite Rmult_assoc, Rinv_l, Rmult_1_r, Rmult_1_l.
    - rewrite INR_IZR_INZ. now apply IZR_lt.
    - apply Rgt_not_eq. now apply IZR_lt. }
  assert (INR i / IZR n * BarVisualizer.logRange < 1 * BarVisualizer.logRange)
    by (apply Rmult_lt_compat_r; assumption).
  unfold BarVisualizer.logRange, BarVisualizer.logMax, BarVisualizer.maxFreq in *.
  rlra.
Qed.

Lemma freq_at_least_minFreq (n : Z) (i : nat) :
  (0 < n)%Z → 20 <= BarVisualizer.freq n i.
Proof.
  intros Hn. rewrite <- (freq_lowest n).
  destruct i as [|i]; [ apply Rle_refl |].
  apply Rlt_le, freq_increasing; [ exact Hn | lia ].
Qed.

Lemma binIndex_monotone (n : Z) (fftSize i j : nat) :
  (0 < n)%Z → (i ≤ j)%nat →
  (BarVisualizer.binIndex n fftSize i ≤ BarVisualizer.binIndex n fftSize j)%Z.
Proof.
  intros Hn Hij. unfold BarVisualizer.binIndex. apply Zfloor_le.
  assert (Hf : BarVisualizer.freq n i <= BarVisualizer.freq n j).
  { destruct (decide (i = j)) as [->|Hne]; [ apply Rle_refl |].
    apply Rlt_le, freq_increasing; [ exact Hn | lia ]. }
  pose proof (pos_INR fftSize) as Hs.
  apply Rmult_le_compat_r; [ rlra |].
  unfold BarVisualizer.nyquist, Rdiv.
  apply Rmult_le_compat_r; [ rlra | exact Hf ].
Qed.

Lemma binIndex_lower_half (n : Z) (fftSize i : nat) :
  (0 < n)%Z → (Z.of_nat i < n)%Z → (0 < fftSize)%nat →
  IZR (BarVisualizer.binIndex n fftSize i) < INR fftSize / 2.
Proof.
  intros Hn Hi Hs.
  pose proof (freq_below_maxFreq n i Hn Hi) as Hf.
  pose proof (freq_at_least_minFreq n i Hn) as Hf0.
  assert (0 < INR fftSize) by (apply lt_0_INR; exact Hs).
  unfold BarVisualizer.binIndex.
  destruct (Zfloor_bound (BarVisualizer.freq n i / BarVisualizer.nyquist
                          * (INR fftSize / 2))) as [Hlo _].
  eapply Rle_lt_trans; [ exact Hlo |].
  unfold BarVisualizer.nyquist.
  assert (BarVisualizer.freq n i / 22050 < 1) by rlra.
  assert (BarVisualizer.freq n i / 22050 * (INR fftSize / 2)
          < 1 * (INR fftSize / 2)) by (apply Rmult_lt_compat_r; rlra).
  rlra.
Qed.

End BarBands.

(** X1. The centre frequencies of the bar mode start at exactly 20 Hz and
    stay below 20 kHz: band 0 sits at 20 Hz, every band [i < numBands]
    at a frequency in [20, 20000). *)
Theorem bar_frequencies_within_audible_range (n : Z) (i : nat) :
  (0 < n)%Z → (Z.of_nat i < n)%Z →
  BarVisualizer.freq n 0 = 20%R
  ∧ (20 <= BarVisualizer.freq n i < 20000)%R.
Proof.
  intros Hn Hi. split; [ apply freq_lowest |].
  split; [ now apply freq_at_least_minFreq | now apply freq_below_maxFreq ].
Qed.

Lemma bar_frequencies_within_audible_range_witness :
  (20 <= BarVisualizer.freq 8 7 < 20000)%R.
Proof. apply (bar_frequencies_within_audible_range 8 7); lia. Defined.

(** X2. The bins picked for the bars never decrease from one bar to the
    next, and all of them lie in the lower half of the buffer: on a
    buffer of at least two entries the cap [Math.min(binIndex, fftSize - 1)]
    never applies, the stored index being [binIndex] itself, below
    [fftSize / 2]. *)
Theorem bar_bins_ascending_in_lower_half (n : Z) (fftSize i j : nat) (bi bj : Z) :
  (0 < n)%Z → (i ≤ j)%nat →
  BarVisualizer.freqBins n fftSize !! i = Some bi →
  BarVisualizer.freqBins n fftSize !! j = Some bj →
  (bi ≤ bj)%Z
  ∧ ((2 ≤ fftSize)%nat →
       bj = BarVisualizer.binIndex n fftSize j
       ∧ (0 <= IZR bj < INR fftSize / 2)%R).
Proof.
  intros Hn Hij Hbi Hbj.
  apply freqBins_lookup in Hbi as [Hi ->].
  apply freqBins_lookup in Hbj as [Hj ->].
  split.
  - pose proof (binIndex_monotone n fftSize i j Hn Hij). lia.
  - intros Hsize.
    assert (Hlt : (IZR (BarVisualizer.binIndex n fftSize j) < INR fftSize / 2)%R)
      by (apply binIndex_lower_half; lia).
    pose proof (binIndex_nonneg n fftSize j) as H0.
    assert (Hcap : (BarVisualizer.binIndex n fftSize j ≤ Z.of_nat fftSize - 1)%Z).
    { apply le_IZR. rewrite minus_IZR, <- INR_IZR_INZ.
      assert (2 <= INR fftSize)%R by (apply (le_INR 2); exact Hsize).
      rlra. }
    rewrite Z.min_l by exact Hcap.
    split; [ reflexivity |]. split; [ now apply IZR_le | exact Hlt ].
Qed.

Lemma bar_bins_ascending_in_lower_half_witness :
  ∃ b0 b7 : Z,
    BarVisualizer.freqBins 8 1024 !! 0%nat = Some b0
    ∧ BarVisualizer.freqBins 8 1024 !! 7%nat = Some b7
    ∧ (b0 ≤ b7)%Z ∧ (0 <= IZR b7 < INR 1024 / 2)%R.
Proof.
  eexists _, _. split; [ reflexivity |]. split; [ reflexivity |].
  destruct (bar_bins_ascending_in_lower_half 8 1024 0 7 _ _
              ltac:(lia) ltac:(lia) eq_refl eq_refl) as [Hle Hhalf].
  split; [ exact Hle |]. apply Hhalf. lia.
Defined.

Lemma dataAt_inside (frequencyData : list Q) (dataIndex : Z) :
  (0 ≤ dataIndex < Z.of_nat (length frequencyData))%Z →
  ∃ db, BarVisualizer.dataAt frequencyData dataIndex = Some db.
Proof.
  intros [H0 Hlt]. unfold BarVisualizer.dataAt.
  destruct (lookup_lt_is_Some_2 frequencyData (Z.to_nat dataIndex)) as [db Hdb];
    [ lia |].
  exists db. destruct dataIndex; [ exact Hdb | exact Hdb | lia ].
Qed.

(** X3. Over a non-empty buffer one [draw] of the bar mode fills exactly
    [numBands] rectangles, between 4 and 12 whatever the setting holds,
    and every bar reads an entry that exists in the buffer: no bar is
    drawn from a missing reading. *)
Theorem bars_all_read_the_buffer (width height : Q)
    (settings : BarVisualizer.Settings) (frequencyData : list Q) :
  frequencyData ≠ [] →
  let n := BarVisualizer.numBands (BarVisualizer.numFrequencyBands settings) in
  length (BarVisualizer.drawBars width height settings frequencyData) = Z.to_nat n
  ∧ (4 ≤ n ≤ 12)%Z
  ∧ (∀ i : nat, (i < Z.to_nat n)%nat →
       ∃ (dataIndex : Z) (db : Q),
         BarVisualizer.freqBins n (length frequencyData) !! i = Some dataIndex
         ∧ BarVisualizer.dataAt frequencyData dataIndex = Some db
         ∧ BarVisualizer.drawBars width height settings frequencyData !! i
           = Some (Some (BarVisualizer.bar width height settings i db))).
Proof.
  intros Hne n.
  pose proof (numBands_in_range (BarVisualizer.numFrequencyBands settings)) as Hn.
  fold n in Hn.
  assert (Hlen : length (BarVisualizer.freqBins n (length frequencyData)) = Z.to_nat n)
    by (unfold BarVisualizer.freqBins; now rewrite length_fmap, length_seq).
  split; [ unfold BarVisualizer.drawBars; fold n; now rewrite length_imap |].
  split; [ exact Hn |].
  intros i Hi.
  destruct (lookup_lt_is_Some_2 (BarVisualizer.freqBins n (length frequencyData)) i)
    as [b Hb]; [ lia |].
  pose proof (freqBins_lookup _ _ _ _ Hb) as [_ Eb].
  pose proof (binIndex_nonneg n (length frequencyData) i) as H0.
  pose proof (nonempty_length frequencyData Hne) as Hpos.
  destruct (dataAt_inside frequencyData b) as [db Hdb]; [ lia |].
  exists b, db. split; [ exact Hb |]. split; [ exact Hdb |].
  unfold BarVisualizer.drawBars. fold n.
  rewrite list_lookup_imap, Hb. simpl. now rewrite Hdb.
Qed.

Lemma bars_all_read_the_buffer_witness :
  length (BarVisualizer.drawBars 1280 720
            {| BarVisualizer.numFrequencyBands := None;
               BarVisualizer.barWidth := 5; BarVisualizer.barSpacing := 2;
               BarVisualizer.sensitivity := Some 50%Q |}
            (repeat (-50)%Q 12)) = 8%nat.
Proof.
  apply (bars_all_read_the_buffer 1280 720
           {| BarVisualizer.numFrequencyBands := None;
              BarVisualizer.barWidth := 5; BarVisualizer.barSpacing := 2;
              BarVisualizer.sensitivity := Some 50%Q |}
           (repeat (-50)%Q 12)).
  discriminate.
Defined.

Section BarLayout.
Local Open Scope Q_scope.

Lemma sensitivityScale_unit (sensitivity : Q) :
  0 <= sensitivity <= 100 →
  0 <= BarVisualizer.sensitivityScale (Some sensitivity) <= 1.
Proof.
  intros [H0 H1]. unfold BarVisualizer.sensitivityScale. simpl. qconst.
  split; qlra.
Qed.

Lemma product_in_unit_interval (a b c : Q) :
  0 <= a <= 1 → 0 <= b <= 1 → 0 <= c → 0 <= a * c * b <= c.
Proof.
  intros Ha Hb Hc.
  assert (H1 : 0 <= a * c <= c) by (split; Lqa.nra).
  assert (H2 : 0 <= a * c * b <= a * c) by (split; Lqa.nra).
  split; qlra.
Qed.

End BarLayout.


(** X5. For a reading between -100 and 0 dB and the sensitivity slider
    anywhere in 0..100, on a canvas at least 2 pixels high, the bar stays
    inside the canvas: its height is between 2 and the canvas height and
    its top edge is not above the top of the canvas. *)
Theorem bar_inside_canvas (width height : Q) (settings : BarVisualizer.Settings)
    (i : nat) (db s : Q) :
  (2 <= height)%Q → (-100 <= db <= 0)%Q →
  BarVisualizer.sensitivity settings = Some s → (0 <= s <= 100)%Q →
  let r := BarVisualizer.bar width height settings i db in
  (2 <= BarVisualizer.rect_height r <= height)%Q
  ∧ (0 <= BarVisualizer.rect_y r <= height - 2)%Q.
Proof.
  intros Hh Hdb Hs Hrange r. subst r. simpl. rewrite Hs.
  assert (Hnorm : (0 <= BarVisualizer.normalizedValue db <= 1)%Q)
    by (unfold BarVisualizer.normalizedValue; qconst; split; qlra).
  pose proof (sensitivityScale_unit s Hrange) as Hscale.
  assert (Hheight : (0 <= height)%Q) by qlra.
  pose proof (product_in_unit_interval _ _ _ Hnorm Hscale Hheight) as [_ Hprod].
  assert (Hbar : (2 <= BarVisualizer.barHeight db height (Some s) <= height)%Q).
  { unfold BarVisualizer.barHeight. split; [ apply Q.le_max_l |].
    apply Q.max_lub; assumption. }
  destruct Hbar as [Hlo Hhi]. repeat split; try assumption; qlra.
Qed.

Lemma bar_inside_canvas_witness :
  (0 <= BarVisualizer.rect_y
          (BarVisualizer.bar 1280 720
             {| BarVisualizer.numFrequencyBands := Some 8%Z;
                BarVisualizer.barWidth := 5; BarVisualizer.barSpacing := 2;
                BarVisualizer.sensitivity := Some 100%Q |} 3 (-10))
   <= 720 - 2)%Q.
Proof.
  apply (bar_inside_canvas 1280 720
           {| BarVisualizer.numFrequencyBands := Some 8%Z;
              BarVisualizer.barWidth := 5; BarVisualizer.barSpacing := 2;
              BarVisualizer.sensitivity := Some 100%Q |} 3 (-10) 100);
    try reflexivity; try (split; vm_compute; discriminate);
    vm_compute; discriminate.
Defined.

(** ** Waveform visualizer: the two passes *)

Section WaveformPasses.
Local Open Scope Q_scope.

Lemma numSamples_in_range (wavelengthSize : option Z) :
  (128 ≤ WaveformVisualizer.numSamples wavelengthSize ≤ 2048)%Z.
Proof. unfold WaveformVisualizer.numSamples. lia. Qed.

Lemma bufferLength_bounds (waveformData : list Q) (wavelengthSize : option Z) :
  (WaveformVisualizer.bufferLength waveformData wavelengthSize ≤ length waveformData)%nat
  ∧ (WaveformVisualizer.bufferLength waveformData wavelengthSize ≤ 2048)%nat.
Proof.
  pose proof (numSamples_in_range wavelengthSize).
  unfold WaveformVisualizer.bufferLength. lia.
Qed.

Lemma xsFrom_length (x sliceWidth : Q) (points : nat) :
  length (WaveformVisualizer.xsFrom x sliceWidth points) = points.
Proof.
  revert x. induction points as [|points IH]; intros x; simpl; [ reflexivity |].
  now rewrite IH.
Qed.


End WaveformPasses.

(** X6. Whatever the samples, the sensitivity and the wavelength setting,
    every y-coordinate of the primary waveform trace lies between the
    6-pixel margins of a canvas at least 12 pixels high, and the trace
    has [min(waveformData.length, numSamples)] points, never more than
    2048. *)
Theorem primary_trace_within_margins (height sensitivity : Q)
    (wavelengthSize : option Z) (waveformData : list Q) :
  (12 <= height)%Q →
  Forall (λ y, (6 <= y <= height - 6)%Q)
         (WaveformVisualizer.traceYs height sensitivity wavelengthSize waveformData)
  ∧ length (WaveformVisualizer.traceYs height sensitivity wavelengthSize waveformData)
    = Nat.min (length waveformData)
              (Z.to_nat (WaveformVisualizer.numSamples wavelengthSize))
  ∧ (length (WaveformVisualizer.traceYs height sensitivity wavelengthSize waveformData)
     ≤ 2048)%nat.
Proof.
  intros Hh.
  pose proof (numSamples_in_range wavelengthSize) as Hn.
  pose proof (bufferLength_bounds waveformData wavelengthSize) as [Hlen Hmax].
  unfold WaveformVisualizer.traceYs.
  split; [| split ].
  - apply Forall_fmap, Forall_forall. intros sample _. simpl.
    exact (traceY_within_margins height (Some sensitivity) sample Hh).
  - rewrite length_fmap, length_take.
    unfold WaveformVisualizer.bufferLength. lia.
  - rewrite length_fmap, length_take. lia.
Qed.

Lemma primary_trace_within_margins_witness :
  Forall (λ y, (6 <= y <= 720 - 6)%Q)
         (WaveformVisualizer.traceYs 720 5000 (Some 1024%Z) [1; -1; 3; 1 # 2]%Q).
Proof.
  apply (primary_trace_within_margins 720 5000 (Some 1024%Z) [1; -1; 3; 1 # 2]%Q).
  vm_compute. discriminate.
Defined.



(** X8. The mirror pass draws a sample at
    [height / 2 * (1 - sample * sensitivity)]: on a canvas of positive
    height it stays on the canvas exactly when the product of sample and
    raw sensitivity lies in [-1, 1], as it does for samples in [-1, 1]
    at the default sensitivity 1. *)
Theorem mirror_on_canvas_iff (height sensitivity sample : Q) :
  (0 < height)%Q →
  (WaveformVisualizer.mirrorY height sensitivity sample
   == height / 2 * (1 - sample * sensitivity))%Q
  ∧ ((0 <= WaveformVisualizer.mirrorY height sensitivity sample <= height)%Q
     ↔ (-1 <= sample * sensitivity <= 1)%Q).
Proof.
  intros Hh.
  assert (E : (WaveformVisualizer.mirrorY height sensitivity sample
               == height / 2 * (1 - sample * sensitivity))%Q)
    by (unfold WaveformVisualizer.mirrorY; field).
  split; [ exact E |]. rewrite E. qconst.
  set (t := (sample * sensitivity)%Q).
  split; intros [H1 H2]; split; Lqa.nra.
Qed.

Lemma mirror_on_canvas_iff_witness :
  (0 <= WaveformVisualizer.mirrorY 720 1 (-1 # 2) <= 720)%Q.
Proof.
  apply (mirror_on_canvas_iff 720 1 (-1 # 2)); [ reflexivity |].
  split; vm_compute; discriminate.
Defined.

(** ** Particle and geometric visualizers *)

Section Reactive3D.
Local Open Scope Q_scope.

Lemma or_default_cases (entry : option Q) (d : Q) (P : Q → Prop) :
  P d → (∀ v, entry = Some v → P v) → P (JS.or_default entry d).
Proof.
  intros Hd Hv. unfold JS.or_default.
  destruct entry as [v|]; [| exact Hd ].
  destruct (JS.is_zero v); [ exact Hd | now apply Hv ].
Qed.

Lemma normalized_reading_unit (entry : option Q) :
  (∀ v, entry = Some v → -100 <= v <= 0) →
  0 <= (JS.or_default entry (-80) + 100) / 100 <= 1.
Proof.
  intros Hentry.
  apply (or_default_cases entry (-80) (λ v, 0 <= (v + 100) / 100 <= 1)).
  - split; vm_compute; discriminate.
  - intros v Hv. destruct (Hentry v Hv). qconst. split; qlra.
Qed.

Lemma frequencyIndex_bounds (i particleCount : nat) (frequencyData : list Q) :
  (i < particleCount)%nat → frequencyData ≠ [] →
  (0 ≤ ParticleVisualizer.frequencyIndex i particleCount frequencyData
     ≤ Z.of_nat (length frequencyData) - 1)%Z.
Proof.
  intros Hi Hne. unfold ParticleVisualizer.frequencyIndex.
  destruct (fraction_bounds i (Z.of_nat particleCount)) as [H0 H1]; [ lia | lia |].
  apply scaled_fraction_floor; [ exact H0 | exact H1 | now apply nonempty_length ].
Qed.

Lemma sum_of_unit_terms (f : nat → Q) (l : list nat) (acc : Q) :
  (∀ j, 0 <= f j <= 1) →
  acc <= fold_left (λ (sum : Q) (j : nat), sum + f j) l acc
  ∧ fold_left (λ (sum : Q) (j : nat), sum + f j) l acc
    <= acc + inject_Z (Z.of_nat (length l)).
Proof.
  intros Hf. revert acc. induction l as [|j l IH]; intros acc; simpl length.
  - simpl. change (inject_Z (Z.of_nat 0)) with 0. split; qlra.
  - simpl fold_left. destruct (IH (acc + f j)) as [Hlo Hhi]. destruct (Hf j).
    rewrite Nat2Z.inj_succ. unfold Z.succ. rewrite inject_Z_plus.
    change (inject_Z 1) with 1. split; qlra.
Qed.

Lemma bandSize_div (frequencyData : list Q) :
  GeometricVisualizer.bandSize frequencyData = (length frequencyData / 5)%nat.
Proof.
  unfold GeometricVisualizer.bandSize, GeometricVisualizer.shapeCount.
  rewrite <- Zdiv_Qdiv. change (Z.of_nat 5) with 5%Z.
  rewrite <- (Nat2Z.id (length frequencyData / 5)). f_equal.
  now rewrite Nat2Z.inj_div.
Qed.

End Reactive3D.

(** X9. For every particle [i < particleCount] and a non-empty buffer the
    frequency index lies in [0, length - 1]: the particle reads an entry
    that exists, so the fallback of -80 dB is never taken for a missing
    entry. *)
Theorem particle_reads_inside_buffer (i particleCount : nat) (frequencyData : list Q) :
  (i < particleCount)%nat → frequencyData ≠ [] →
  let index := ParticleVisualizer.frequencyIndex i particleCount frequencyData in
  (0 ≤ index ≤ Z.of_nat (length frequencyData) - 1)%Z
  ∧ ∃ db : Q,
      frequencyData !! Z.to_nat index = Some db
      ∧ ParticleVisualizer.audioValueAt i particleCount frequencyData
        = ParticleVisualizer.audioValue (Some db).
Proof.
  intros Hi Hne index.
  pose proof (frequencyIndex_bounds i particleCount frequencyData Hi Hne) as Hb.
  fold index in Hb. split; [ exact Hb |].
  destruct (lookup_lt_is_Some_2 frequencyData (Z.to_nat index)) as [db Hdb]; [ lia |].
  exists db. split; [ exact Hdb |].
  unfold ParticleVisualizer.audioValueAt. fold index.
  destruct index; [ now rewrite Hdb | now rewrite Hdb | lia ].
Qed.

Lemma particle_reads_inside_buffer_witness :
  (0 ≤ ParticleVisualizer.frequencyIndex 1999 2000 (repeat (-50)%Q 12) ≤ 11)%Z.
Proof.
  apply (particle_reads_inside_buffer 1999 2000 (repeat (-50)%Q 12));
    [ lia | discriminate ].
Defined.

(** X10. For a reading between -100 and 0 dB, a reading of exactly 0 and
    a missing reading included, the particle mode computes an audio
    value in [0, 1], picks a colour that exists in a non-empty scheme,
    and with a sensitivity that is not negative scales the particle by
    at least 1, on a beat or not. *)
Theorem particle_value_in_unit_interval (entry : option Q) (sensitivity : Q)
    (isBeat : bool) (schemeColors : list string) :
  (∀ db, entry = Some db → (-100 <= db <= 0)%Q) →
  let audioValue := ParticleVisualizer.audioValue entry in
  (0 <= audioValue <= 1)%Q
  ∧ (schemeColors ≠ [] →
       (0 ≤ ParticleVisualizer.colorSlot audioValue schemeColors
          ≤ Z.of_nat (length schemeColors) - 1)%Z)
  ∧ ((0 <= sensitivity)%Q →
       (1 <= ParticleVisualizer.scale audioValue sensitivity isBeat)%Q).
Proof.
  intros Hentry audioValue.
  pose proof (normalized_reading_unit entry Hentry) as Hunit.
  fold (ParticleVisualizer.audioValue entry) in Hunit. fold audioValue in Hunit.
  split; [ exact Hunit |]. split.
  - intros Hne. apply capped_floor_in_range; [ apply Hunit | now apply nonempty_length ].
  - intros Hs. unfold ParticleVisualizer.scale.
    assert (Hb : (1 <= ParticleVisualizer.beatScale isBeat)%Q)
      by (destruct isBeat; vm_compute; discriminate).
    destruct Hunit as [H0 _].
    assert (0 <= audioValue * sensitivity)%Q by Lqa.nra.
    assert (0 <= audioValue * sensitivity * ParticleVisualizer.beatScale isBeat)%Q
      by Lqa.nra.
    qlra.
Qed.

Lemma particle_value_in_unit_interval_witness :
  (0 <= ParticleVisualizer.audioValue (Some 0%Q) <= 1)%Q.
Proof.
  apply (particle_value_in_unit_interval (Some 0%Q) 1 true ["#ff0000"]).
  intros db [= <-]. split; vm_compute; discriminate.
Defined.

Section Displacement.
Local Open Scope R_scope.

Lemma distance_nonneg (x y z : R) : 0 <= ParticleVisualizer.distance x y z.
Proof. unfold ParticleVisualizer.distance. apply sqrt_pos. Qed.

Lemma sum_squares_nonneg (x y z : R) : 0 <= x * x + y * y + z * z.
Proof. Lra.nra. Qed.

Lemma distance_zero_iff (x y z : R) :
  ParticleVisualizer.distance x y z = 0 ↔ x = 0 ∧ y = 0 ∧ z = 0.
Proof.
  unfold ParticleVisualizer.distance. split.
  - intros H. apply sqrt_eq_0 in H; [| apply sum_squares_nonneg ].
    repeat split; Lra.nra.
  - intros (-> & -> & ->).
    replace (0 * 0 + 0 * 0 + 0 * 0) with 0 by ring. apply sqrt_0.
Qed.

Lemma distance_scaled (k x y z : R) :
  ParticleVisualizer.distance (x * k) (y * k) (z * k)
  = Rabs k * ParticleVisualizer.distance x y z.
Proof.
  unfold ParticleVisualizer.distance.
  replace (x * k * (x * k) + y * k * (y * k) + z * k * (z * k))
    with (k * k * (x * x + y * y + z * z)) by ring.
  rewrite sqrt_mult_alt by Lra.nra.
  f_equal. fold (Rsqr k). apply sqrt_Rsqr_abs.
Qed.

End Displacement.

(** X11. The displacement of a particle is radial.  A particle away from
    the origin moves to [scale] times its position, so its direction is
    kept and its distance from the centre is multiplied by [|scale|];
    with a scale of at least 1 it never moves inwards.  A particle at
    the origin has no direction ([0 / 0]) and is written back as [NaN]. *)
Theorem particle_displacement_radial (scale x y z : R) :
  ((x, y, z) ≠ (0, 0, 0)%R →
     ParticleVisualizer.displace scale (x, y, z)
     = Some (x * scale, y * scale, z * scale)%R
     ∧ ParticleVisualizer.distance (x * scale) (y * scale) (z * scale)
       = (Rabs scale * ParticleVisualizer.distance x y z)%R
     ∧ ((1 <= scale)%R →
          (ParticleVisualizer.distance x y z
           <= ParticleVisualizer.distance (x * scale) (y * scale) (z * scale))%R))
  ∧ ParticleVisualizer.displace scale (0, 0, 0)%R = None.
Proof.
  split.
  - intros Hne.
    assert (Hd : ParticleVisualizer.distance x y z ≠ 0%R).
    { intros H. apply distance_zero_iff in H as (-> & -> & ->). now apply Hne. }
    split; [| split ].
    + unfold ParticleVisualizer.displace.
      destruct (Req_dec_T (ParticleVisualizer.distance x y z) 0) as [E|_];
        [ contradiction |].
      do 2 f_equal; [ f_equal |]; field; exact Hd.
    + apply distance_scaled.
    + intros Hs. rewrite distance_scaled.
      rewrite Rabs_pos_eq by rlra.
      pose proof (distance_nonneg x y z). Lra.nra.
  - unfold ParticleVisualizer.displace.
    destruct (Req_dec_T (ParticleVisualizer.distance 0 0 0) 0) as [_|Hn];
      [ reflexivity |].
    exfalso. apply Hn. now apply distance_zero_iff.
Qed.

Lemma particle_displacement_radial_witness :
  ParticleVisualizer.displace 2 (3, 0, 4)%R = Some (3 * 2, 0 * 2, 4 * 2)%R.
Proof.
  apply (particle_displacement_radial 2 3 0 4).
  intros [= _ H]. rlra.
Defined.

(** X12. The geometric mode cuts the buffer into five bands of
    [floor(length / 5)] entries.  With at least five entries, all between
    -100 and 0 dB, every mesh [i < 5] reads only entries that exist and
    gets an average in [0, 1]; its colour then exists in a non-empty
    scheme, its opacity lies in [1/2, 1] and, for a sensitivity that is
    not negative, its scale is at least 1.  With fewer than five entries
    the band is empty and the average is [NaN]. *)
Theorem geometric_band_average_in_unit_interval (frequencyData : list Q)
    (i : nat) (sensitivity : Q) (isBeat : bool) (colors : list string) :
  ((5 ≤ length frequencyData)%nat →
   Forall (λ db, (-100 <= db <= 0)%Q) frequencyData →
   (i < GeometricVisualizer.shapeCount)%nat →
   (i * GeometricVisualizer.bandSize frequencyData
    + GeometricVisualizer.bandSize frequencyData ≤ length frequencyData)%nat
   ∧ ∃ average : Q,
       GeometricVisualizer.average frequencyData i = Some average
       ∧ (0 <= average <= 1)%Q
       ∧ (colors ≠ [] →
            (0 ≤ GeometricVisualizer.colorSlot average colors
               ≤ Z.of_nat (length colors) - 1)%Z)
       ∧ ((1 # 2) <= GeometricVisualizer.opacity average <= 1)%Q
       ∧ ((0 <= sensitivity)%Q →
            (1 <= GeometricVisualizer.scale average sensitivity isBeat)%Q))
  ∧ ((length frequencyData < 5)%nat →
       GeometricVisualizer.average frequencyData i = None).
Proof.
  pose proof (bandSize_div frequencyData) as Hsize.
  split.
  - intros Hlen Hall Hi. unfold GeometricVisualizer.shapeCount in Hi.
    assert (Hpos : (0 < GeometricVisualizer.bandSize frequencyData)%nat).
    { rewrite Hsize. apply Nat.div_str_pos. lia. }
    assert (Hfit : (5 * GeometricVisualizer.bandSize frequencyData
                    ≤ length frequencyData)%nat).
    { rewrite Hsize. apply Nat.Div0.mul_div_le. }
    split; [ nia |].
    assert (Hterm : ∀ j, (0 <= GeometricVisualizer.normalized (frequencyData !! j) <= 1)%Q).
    { intros j. apply normalized_reading_unit. intros v Hv.
      rewrite Forall_forall in Hall. apply Hall.
      now apply list_elem_of_lookup_2 in Hv. }
    unfold GeometricVisualizer.average.
    destruct (GeometricVisualizer.bandSize frequencyData) as [|m] eqn:Em; [ lia |].
    eexists. split; [ reflexivity |].
    destruct (sum_of_unit_terms
                (λ j, GeometricVisualizer.normalized (frequencyData !! j))
                (seq (i * S m) (S m)) 0%Q Hterm) as [Hlo Hhi].
    rewrite length_seq, Qplus_0_l in Hhi.
    unfold GeometricVisualizer.bandSum. rewrite Em.
    set (sum := fold_left _ _ _) in *.
    assert (Hm : (0 < inject_Z (Z.of_nat (S m)))%Q) by (apply (inject_Z_lt 0); lia).
    assert (Havg : (0 <= sum / inject_Z (Z.of_nat (S m)) <= 1)%Q).
    { split.
      - apply Qle_shift_div_l; [ exact Hm |]. now rewrite Qmult_0_l.
      - apply Qle_shift_div_r; [ exact Hm |]. now rewrite Qmult_1_l. }
    split; [ exact Havg |]. destruct Havg as [Ha0 Ha1].
    split; [| split ].
    + intros Hne. apply capped_floor_in_range; [ exact Ha0 | now apply nonempty_length ].
    + unfold GeometricVisualizer.opacity. split; qlra.
    + intros Hs. unfold GeometricVisualizer.scale.
      set (a := (sum / inject_Z (Z.of_nat (S m)))%Q) in *.
      assert (0 <= a * sensitivity)%Q by Lqa.nra.
      destruct isBeat; [| qlra ].
      assert (0 <= a * sensitivity * (13 # 10))%Q by Lqa.nra. qlra.
  - intros Hlen. unfold GeometricVisualizer.average.
    rewrite Hsize, Nat.div_small by lia. reflexivity.
Qed.

Lemma geometric_band_average_in_unit_interval_witness :
  ∃ average : Q,
    GeometricVisualizer.average (repeat (-50)%Q 12) 4 = Some average
    ∧ (0 <= average <= 1)%Q.
Proof.
  destruct (geometric_band_average_in_unit_interval (repeat (-50)%Q 12) 4 1 false [])
    as [Hband _].
  destruct Hband as (_ & average & Havg & Hunit & _).
  - simpl. lia.
  - apply Forall_forall. intros db Hdb.
    apply list_elem_of_In, repeat_spec in Hdb. subst db.
    split; vm_compute; discriminate.
  - unfold GeometricVisualizer.shapeCount. lia.
  - exists average. split; assumption.
Defined.

(** ** Audio service: transport and sources *)

Section Transport.
Local Open Scope R_scope.

Lemma decibelValue_nonpos (volume : R) : decibelValue volume <= 0.
Proof.
  unfold decibelValue. pose proof (clampedVolume_range volume) as [_ H1].
  destruct (Rlt_dec 0 (clampedVolume volume)) as [Hpos|_]; [| rlra ].
  destruct H1 as [Hlt|Heq].
  - pose proof (log10_increasing _ _ Hpos Hlt) as H. rewrite log10_1 in H. rlra.
  - rewrite Heq, log10_1. rlra.
Qed.

Lemma consistent_create (made : JS.result Analyser) : Spec.consistent (create made).
Proof.
  unfold Spec.consistent, create. simpl.
  split; [ discriminate |]. split; [ rlra |]. exists 0. split; [ reflexivity | rlra ].
Qed.

Lemma consistent_setVolume (volume : R) (s : State) :
  Spec.consistent s → Spec.consistent (fst (setVolume volume s)).
Proof.
  intros (Hplay & Hvol & gain & Hnode & Hgain). unfold setVolume. rewrite Hnode.
  simpl. split; [ exact Hplay |]. split; [ apply clampedVolume_range |].
  exists (decibelValue volume). split; [ reflexivity | apply decibelValue_nonpos ].
Qed.

Lemma consistent_with_playing_false (s : State) :
  Spec.consistent s → Spec.consistent (with_playing s false).
Proof.
  intros (_ & Hvol & Hnode). split; [ discriminate |]. split; assumption.
Qed.

Lemma consistent_stop (stopThrows : bool) (s : State) :
  Spec.consistent s → Spec.consistent (fst (stop stopThrows s)).
Proof.
  intros H. unfold stop, JS.bind, library, setPlaying.
  destruct (currentSource s); [| exact H ].
  destruct stopThrows; simpl; [ exact H | now apply consistent_with_playing_false ].
Qed.

Lemma stop_not_playing (stopThrows : bool) (s s' : State) :
  Spec.consistent s → stop stopThrows s = (s', JS.Returned tt) →
  isPlaying s' = false.
Proof.
  intros (Hplay & _) Hs. unfold stop, JS.bind, library, setPlaying in Hs.
  destruct (currentSource s) eqn:Esrc.
  - destruct stopThrows; simpl in Hs; [ discriminate |].
    injection Hs as <-. reflexivity.
  - injection Hs as <-. destruct (isPlaying s); [| reflexivity ].
    exfalso. now apply Hplay.
Qed.

Lemma consistent_same_transport (s s' : State) :
  Spec.consistent s →
  currentSource s' = currentSource s → isPlaying s' = isPlaying s →
  volumeNode s' = volumeNode s → currentVolume s' = currentVolume s →
  Spec.consistent s'.
Proof.
  intros H Es Ep En Ev. unfold Spec.consistent. now rewrite Es, Ep, En, Ev.
Qed.

Lemma consistent_with_source (s : State) (source : AudioSource) :
  Spec.consistent s → Spec.consistent (with_source s (Some source)).
Proof.
  intros (_ & Hvol & Hnode). split; [ discriminate |]. split; assumption.
Qed.

Lemma consistent_with_player (s : State) (p : option Player) :
  Spec.consistent s → Spec.consistent (with_player s p).
Proof. intros H. now apply (consistent_same_transport s). Qed.

Lemma consistent_with_analyser (s : State) (a : option Analyser) :
  Spec.consistent s → Spec.consistent (with_analyser s a).
Proof. intros H. now apply (consistent_same_transport s). Qed.

Lemma consistent_createAnalyzer (disposed : Analyser) (made : JS.result Analyser)
    (s : State) :
  Spec.consistent s → Spec.consistent (fst (createAnalyzer disposed made s)).
Proof.
  intros H. unfold createAnalyzer.
  destruct (analyser s), made; simpl;
    repeat apply consistent_with_analyser; exact H.
Qed.

Lemma consistent_setAnalyzerSensitivity (minDb maxDb : Q) (direct : JS.result bool)
    (disposed : Analyser) (made : JS.result Analyser) (s : State) :
  Spec.consistent s →
  Spec.consistent (fst (setAnalyzerSensitivity minDb maxDb direct disposed made s)).
Proof.
  intros H. unfold setAnalyzerSensitivity.
  destruct (analyser s) eqn:Ea; [| now apply consistent_createAnalyzer ].
  unfold JS.try_catch, JS.bind, JS.ret.
  destruct direct as [[|]|]; simpl; try exact H.
  exact (consistent_createAnalyzer disposed made s H).
Qed.

Lemma consistent_perform (call : Call) (s : State) :
  Spec.consistent s → Spec.consistent (perform call s).
Proof.
  intros H. destruct call; simpl.
  - unfold play, JS.bind, library, setPlaying.
    destruct (currentSource s) eqn:Esrc; [| exact H ].
    destruct (isPlaying s), startThrows; simpl; try exact H.
    destruct H as (_ & Hvol & Hnode).
    split; [ simpl; intros _; congruence |]. split; assumption.
  - unfold pause, JS.bind, library, setPlaying.
    destruct (currentSource s); [| exact H ].
    destruct (isPlaying s), stopThrows; simpl; try exact H.
    now apply consistent_with_playing_false.
  - now apply consistent_stop.
  - pose proof (consistent_stop stopThrows s H) as Hs.
    unfold loadAudioFile, JS.bind, library.
    destruct (stop stopThrows s) as [s1 [[]|]]; simpl in *; [| exact Hs ].
    destruct made as [p|]; simpl; [| exact Hs ].
    destruct connectThrows; simpl.
    + now apply consistent_with_player.
    + now apply consistent_with_source, consistent_with_player.
  - pose proof (consistent_stop stopThrows s H) as Hs.
    unfold loadStreamUrl, JS.bind, library.
    destruct (stop stopThrows s) as [s1 [[]|]]; simpl in *; [| exact Hs ].
    destruct made as [p|]; simpl; [| exact Hs ].
    destruct connectThrows; simpl; [ now apply consistent_with_player |].
    pose proof (consistent_setVolume (currentVolume (with_player s1 (Some p)))
                  (with_player s1 (Some p)) (consistent_with_player _ _ Hs)) as Hv.
    destruct (setVolume _ (with_player s1 (Some p))) as [s2 [[]|]]; simpl in *;
      [ now apply consistent_with_source | exact Hv ].
  - pose proof (consistent_stop stopThrows s H) as Hs.
    unfold initMicrophone, JS.bind, library, setPlaying, JS.ret.
    destruct (stop stopThrows s) as [s1 [[]|]]; simpl in *; [| exact Hs ].
    destruct openThrows; simpl; [ exact Hs |].
    destruct Hs as (_ & Hvol & Hnode).
    split; [ simpl; discriminate |]. split; assumption.
  - now apply consistent_setVolume.
  - unfold seekTo. destruct (player s) as [p|]; [| exact H ].
    destruct (JS.try_catch _ _ p) as [p' r]. simpl.
    now apply consistent_with_player.
  - unfold getFrequencyData. destruct (analyser s) as [a|]; [| exact H ].
    unfold on_analyser. destruct (JS.try_catch _ _ a) as [a' r]. simpl.
    now apply (consistent_same_transport s).
  - unfold getWaveformData. destruct (analyser s) as [a|]; [| exact H ].
    unfold on_analyser. destruct (JS.try_catch _ _ a) as [a' r]. simpl.
    now apply (consistent_same_transport s).
  - unfold detectBeat, JS.bind.
    assert (Hf : Spec.consistent (fst (getFrequencyData s))).
    { unfold getFrequencyData. destruct (analyser s) as [a|]; [| exact H ].
      unfold on_analyser. destruct (JS.try_catch _ _ a) as [a' r]. simpl.
      now apply (consistent_same_transport s). }
    destruct (getFrequencyData s) as [s1 [[d|]|]]; simpl in *; exact Hf.
  - now apply consistent_setAnalyzerSensitivity.
  - exact H.
  - exact H.
  - exact H.
  - exact H.
  - exact H.
  - exact H.
  - exact H.
  - exact H.
  - exact H.
Qed.

Lemma consistent_performAll (calls : list Call) (s : State) :
  Spec.consistent s → Spec.consistent (performAll calls s).
Proof.
  revert s. induction calls as [|call calls IH]; intros s H; [ exact H |].
  simpl. apply IH. now apply consistent_perform.
Qed.

End Transport.

(** X13. Whatever public methods are called on a newly constructed
    service with numbers as arguments ([NaN] left aside), in whatever
    order and whether the library calls inside them succeed or throw,
    the service never reports playing without a current source, its
    volume stays within [0, 1], and its volume node holds a gain of at
    most 0 dB: the service never amplifies. *)
Theorem service_invariant (made : JS.result Analyser) (calls : list Call) :
  let s := performAll calls (create made) in
  (isCurrentlyPlaying s = true → currentSource s ≠ None)
  ∧ (0 <= getVolume s <= 1)%R
  ∧ ∃ gain : R, volumeNode s = Some gain ∧ (gain <= 0)%R.
Proof. apply consistent_performAll, consistent_create. Qed.

(** X14. Loading a file that succeeds always leaves the service paused
    on the new source, whatever was playing before: after any sequence
    of calls, a [loadAudioFile] that returns has stopped playback,
    installed the new player and made the file the current source, and
    [getDuration] then reports the duration of the new buffer. *)
Theorem load_file_leaves_service_paused (made : JS.result Analyser)
    (calls : list Call) (name : string) (stopThrows connectThrows : bool)
    (newPlayer : JS.result Player) (s' : State) (source : AudioSource) :
  let s := performAll calls (create made) in
  loadAudioFile name stopThrows newPlayer connectThrows s = (s', JS.Returned source) →
  ∃ p : Player,
    newPlayer = JS.Returned p
    ∧ source = {| sourceType := FILE; sourceName := name |}
    ∧ currentSource s' = Some source
    ∧ player s' = Some p
    ∧ isPlaying s' = false
    ∧ getDuration s' = buffer p.
Proof.
  intros s Hload.
  assert (Hs : Spec.consistent s) by apply consistent_performAll, consistent_create.
  unfold loadAudioFile, JS.bind, library in Hload.
  destruct (stop stopThrows s) as [s1 [[]|]] eqn:Hstop; [| discriminate ].
  pose proof (stop_not_playing _ _ _ Hs Hstop) as Hpaused.
  destruct newPlayer as [p|]; [| discriminate ].
  destruct connectThrows; [ discriminate |].
  simpl in Hload. injection Hload as <- <-.
  exists p. repeat split; assumption.
Qed.

Lemma load_file_leaves_service_paused_witness :
  isPlaying
    (fst (loadAudioFile "next.mp3" false
            (JS.Returned {| buffer := Some 240%Q; position := 0%Q;
                            seekThrows := false |}) false
            (performAll [Play false] Examples.loadedService)))
  = false.
Proof.
  destruct (load_file_leaves_service_paused (JS.Returned Examples.steadyAnalyser)
              [LoadAudioFile "track.mp3" false
                 (JS.Returned {| buffer := Some 180%Q; position := 0%Q;
                                 seekThrows := false |}) false;
               Play false]
              "next.mp3" false false
              (JS.Returned {| buffer := Some 240%Q; position := 0%Q;
                              seekThrows := false |})
              _ _ eq_refl)
    as (p & _ & _ & _ & _ & Hpaused & _).
  exact Hpaused.
Defined.

Lemma service_invariant_witness :
  currentSource
    (performAll [InitMicrophone false false; SetVolume 3;
                 SetAnalyzerSensitivity (-65) (-15) (JS.Returned false)
                   Examples.steadyAnalyser JS.Thrown]
       (create JS.Thrown)) ≠ None.
Proof.
  apply (service_invariant JS.Thrown
           [InitMicrophone false false; SetVolume 3;
            SetAnalyzerSensitivity (-65) (-15) (JS.Returned false)
              Examples.steadyAnalyser JS.Thrown]).
  reflexivity.
Defined.

Lemma with_playing_same (s : State) : with_playing s (isPlaying s) = s.
Proof. now destruct s. Qed.

(** X15. With a source loaded and playback paused, [play] followed by
    [pause] brings the service back to the state it started from, and so
    does pressing Space twice.  A second [play] while playing does
    nothing and cannot fail, even if the library would throw; a [play]
    whose library call throws leaves the service paused and passes the
    error on.  Without a source [play] returns without doing anything. *)
Theorem play_pause_round_trip (s : State) (libraryThrows : bool) :
  (currentSource s ≠ None → isPlaying s = false →
     isPlaying (fst (play false s)) = true
     ∧ fst (pause false (fst (play false s))) = s
     ∧ fst (KeyboardShortcuts.space false (fst (KeyboardShortcuts.space false s))) = s
     ∧ play libraryThrows (fst (play false s)) = (fst (play false s), JS.Returned tt)
     ∧ play true s = (s, JS.Thrown))
  ∧ (currentSource s = None → play libraryThrows s = (s, JS.Returned tt)).
Proof.
  split.
  - intros Hsrc Hpaused.
    destruct (currentSource s) as [source|] eqn:Esrc; [| congruence ].
    assert (Hplay : play false s = (with_playing s true, JS.Returned tt)).
    { unfold play, JS.bind, library, setPlaying. now rewrite Esrc, Hpaused. }
    assert (Hpause : fst (pause false (with_playing s true)) = s).
    { unfold pause, JS.bind, library, setPlaying. simpl. rewrite Esrc. simpl.
      rewrite <- Hpaused at 1.
      destruct s; simpl in *; subst; reflexivity. }
    rewrite Hplay. simpl.
    split; [ reflexivity |]. split; [ exact Hpause |]. split; [| split ].
    + unfold KeyboardShortcuts.space, isCurrentlyPlaying.
      rewrite Hpaused, Hplay. simpl. exact Hpause.
    + unfold play. simpl. now rewrite Esrc.
    + unfold play, JS.bind, library. now rewrite Esrc, Hpaused.
  - intros Hnone. unfold play. now rewrite Hnone.
Qed.

Lemma play_pause_round_trip_witness :
  fst (pause false (fst (play false Examples.loadedService)))
  = Examples.loadedService.
Proof.
  apply (play_pause_round_trip Examples.loadedService false);
    [ discriminate | reflexivity ].
Defined.

(** ** Keyboard shortcuts *)

Section Keyboard.
Local Open Scope R_scope.

Lemma setVolume_fields (volume : R) (s : State) :
  volumeNode s ≠ None →
  currentVolume (fst (setVolume volume s)) = clampedVolume volume
  ∧ volumeNode (fst (setVolume volume s)) = Some (decibelValue volume)
  ∧ currentSource (fst (setVolume volume s)) = currentSource s
  ∧ player (fst (setVolume volume s)) = player s
  ∧ analyser (fst (setVolume volume s)) = analyser s
  ∧ isPlaying (fst (setVolume volume s)) = isPlaying s.
Proof.
  intros Hnode. unfold setVolume.
  destruct (volumeNode s); [| congruence ]. repeat split.
Qed.

End Keyboard.

(** X16. Muting from the keyboard is undone by the same key.  With the
    volume at [v] in (0, 1], pressing M sets the volume to 0 at -70 dB
    and remembers [v]; pressing M again sets the volume back to [v] at
    the gain of [v].  With the volume at 0 and nothing remembered, M
    sets full volume. *)
Theorem mute_key_round_trip (page : KeyboardShortcuts.Page) :
  let s := KeyboardShortcuts.service page in
  volumeNode s ≠ None →
  ((0 < currentVolume s <= 1)%R →
     let muted := KeyboardShortcuts.keyM page in
     let restored := KeyboardShortcuts.keyM muted in
     currentVolume (KeyboardShortcuts.service muted) = 0%R
     ∧ volumeNode (KeyboardShortcuts.service muted) = Some (-70)%R
     ∧ KeyboardShortcuts.previousVolume muted = Some (currentVolume s)
     ∧ currentVolume (KeyboardShortcuts.service restored) = currentVolume s
     ∧ volumeNode (KeyboardShortcuts.service restored)
       = Some (decibelValue (currentVolume s)))
  ∧ (currentVolume s = 0%R → KeyboardShortcuts.previousVolume page = None →
       currentVolume (KeyboardShortcuts.service (KeyboardShortcuts.keyM page)) = 1%R
       ∧ volumeNode (KeyboardShortcuts.service (KeyboardShortcuts.keyM page))
         = Some 0%R).
Proof.
  intros s Hnode. split.
  - intros Hv muted restored.
    assert (Hmuted : muted
                     = {| KeyboardShortcuts.service := fst (setVolume 0 s);
                          KeyboardShortcuts.previousVolume := Some (currentVolume s) |}).
    { subst muted. unfold KeyboardShortcuts.keyM, getVolume. fold s.
      destruct (Rlt_dec 0 (currentVolume s)); [ reflexivity | rlra ]. }
    destruct (setVolume_fields 0 s Hnode) as (Hcv & Hvn & _).
    rewrite clampedVolume_inside in Hcv by rlra.
    rewrite decibelValue_zero in Hvn.
    assert (Hnode' : volumeNode (fst (setVolume 0 s)) ≠ None) by (rewrite Hvn; discriminate).
    assert (Hrestored : KeyboardShortcuts.service restored
                        = fst (setVolume (currentVolume s) (fst (setVolume 0 s)))).
    { subst restored. rewrite Hmuted. unfold KeyboardShortcuts.keyM, getVolume. simpl.
      rewrite Hcv. destruct (Rlt_dec 0 0); [ rlra |]. simpl.
      destruct (Req_dec_T (currentVolume s) 0); [ rlra | reflexivity ]. }
    rewrite Hrestored, Hmuted. simpl.
    destruct (setVolume_fields (currentVolume s) (fst (setVolume 0 s)) Hnode')
      as (Hcv' & Hvn' & _).
    rewrite clampedVolume_inside in Hcv' by rlra.
    repeat split; assumption.
  - intros Hzero Hprev. unfold KeyboardShortcuts.keyM, getVolume. fold s.
    rewrite Hzero, Hprev. destruct (Rlt_dec 0 0); [ rlra |]. simpl.
    destruct (setVolume_fields 1 s Hnode) as (Hcv & Hvn & _).
    rewrite clampedVolume_inside in Hcv by rlra.
    split; [ exact Hcv |]. rewrite Hvn. f_equal.
    rewrite decibelValue_positive by rlra. rewrite log10_1. rlra.
Qed.

Lemma mute_key_round_trip_witness :
  currentVolume
    (KeyboardShortcuts.service
       (KeyboardShortcuts.keyM
          (KeyboardShortcuts.keyM
             {| KeyboardShortcuts.service := Examples.freshService;
                KeyboardShortcuts.previousVolume := None |})))
  = 1%R.
Proof.
  apply (mute_key_round_trip
           {| KeyboardShortcuts.service := Examples.freshService;
              KeyboardShortcuts.previousVolume := None |});
    [ discriminate | simpl; rlra ].
Defined.

Section Scrubbing.
Local Open Scope Q_scope.

Lemma or_default_same (d : Q) : JS.or_default (Some d) 0 == d.
Proof.
  unfold JS.or_default, JS.is_zero.
  destruct (Qeq_bool d 0) eqn:E; [| reflexivity ].
  apply Qeq_bool_iff in E. now rewrite E.
Qed.

Lemma or_default_positive (d fallback : Q) :
  0 < d → JS.or_default (Some d) fallback = d.
Proof.
  intros Hd. apply or_default_nonzero. intros E. rewrite E in Hd.
  now apply (Qlt_irrefl 0).
Qed.

Lemma clamp_nonneg_capped (x d : Q) :
  0 <= x → 0 <= d → Qmax 0 (Qmin x d) == Qmin x d.
Proof. intros Hx Hd. apply Q.max_r. now apply Q.min_glb. Qed.

Lemma validPosition_with_duration (s : State) (p : Player) (d seconds : Q) :
  player s = Some p → buffer p = Some d →
  validPosition s seconds == Qmax 0 (Qmin seconds d).
Proof.
  intros Hp Hb. unfold validPosition, getDuration. rewrite Hp, Hb.
  now rewrite or_default_same.
Qed.

Lemma seekTo_position (s : State) (p : Player) (seconds : Q) :
  player s = Some p → seekThrows p = false →
  player (fst (seekTo seconds s))
  = Some {| buffer := buffer p; position := validPosition s seconds;
            seekThrows := false |}.
Proof.
  intros Hp Hthrow. unfold seekTo. rewrite Hp.
  unfold JS.try_catch, seek, JS.ret. now rewrite Hthrow.
Qed.

Lemma scrub_clamp (position d : Q) :
  0 <= d →
  Qmax 0 (Qmin (position * d) d) == Qmax 0 (Qmin 1 position) * d.
Proof.
  intros Hd.
  destruct (Qlt_le_dec position 0) as [Hneg|Hpos].
  - assert (position * d <= 0) by Lqa.nra.
    rewrite (Q.min_l (position * d) d) by qlra.
    rewrite (Q.max_l 0 (position * d)) by assumption.
    rewrite (Q.min_r 1 position) by qlra.
    rewrite (Q.max_l 0 position) by qlra. ring.
  - destruct (Qlt_le_dec 1 position) as [Hbig|Hsmall].
    + assert (d <= position * d) by Lqa.nra.
      rewrite (Q.min_r (position * d) d) by assumption.
      rewrite (Q.max_r 0 d) by assumption.
      rewrite (Q.min_l 1 position) by qlra.
      rewrite (Q.max_r 0 1) by qlra. ring.
    + assert (0 <= position * d <= d) by (split; Lqa.nra).
      rewrite (Q.min_l (position * d) d) by qlra.
      rewrite (Q.max_r 0 (position * d)) by qlra.
      rewrite (Q.min_r 1 position) by assumption.
      rewrite (Q.max_r 0 position) by assumption. reflexivity.
Qed.

End Scrubbing.

(** X17. The arrow keys never seek outside the track.  On a player with
    a loaded buffer of positive duration [d] whose seek succeeds, and a
    skip that is not negative, both keys leave the player at a position
    in [0, d].  While playing at time [t >= 0], ArrowRight seeks to
    [min(d, t + skip)] and ArrowLeft to [min(max(0, t - skip), d)]; while
    paused, when no current time is reported, they seek as if from 0: to
    [min(d, skip)] and to 0. *)
Theorem arrow_keys_stay_within_track (s : State) (p : Player) (d skip : Q)
    (now : JS.result Q) :
  player s = Some p → buffer p = Some d → seekThrows p = false →
  (0 < d)%Q → (0 <= skip)%Q →
  ∃ left right : Player,
    player (fst (KeyboardShortcuts.arrowLeft skip now s)) = Some left
    ∧ player (fst (KeyboardShortcuts.arrowRight skip now s)) = Some right
    ∧ (∀ t, getCurrentTime now s = Some t → (0 <= t)%Q →
         (position right == Qmin d (t + skip))%Q
         ∧ (position left == Qmin (Qmax 0 (t - skip)) d)%Q
         ∧ (0 <= position left <= d)%Q ∧ (0 <= position right <= d)%Q)
    ∧ (getCurrentTime now s = None →
         (position right == Qmin d skip)%Q ∧ (position left == 0)%Q).
Proof.
  intros Hp Hb Hthrow Hd Hskip.
  assert (Hd0 : (0 <= d)%Q) by now apply Qlt_le_weak.
  eexists _, _.
  split; [ unfold KeyboardShortcuts.arrowLeft;
           apply (seekTo_position s p _ Hp Hthrow) |].
  split; [ unfold KeyboardShortcuts.arrowRight;
           apply (seekTo_position s p _ Hp Hthrow) |].
  simpl position.
  unfold KeyboardShortcuts.durationOrMax, getDuration. rewrite Hp, Hb.
  rewrite (or_default_positive d _ Hd).
  assert (Hright : ∀ time, (0 <= time)%Q →
            (validPosition s (Qmin d (time + skip)) == Qmin d (time + skip))%Q).
  { intros time Ht. rewrite (validPosition_with_duration s p d) by assumption.
    rewrite (Q.min_l (Qmin d (time + skip)) d) by apply Q.le_min_l.
    apply Q.max_r. apply Q.min_glb; [ exact Hd0 | qlra ]. }
  assert (Hleft : ∀ time,
            (validPosition s (Qmax 0 (time - skip)) == Qmin (Qmax 0 (time - skip)) d)%Q).
  { intros time. rewrite (validPosition_with_duration s p d) by assumption.
    apply clamp_nonneg_capped; [ apply Q.le_max_l | exact Hd0 ]. }
  split.
  - intros t Ht Ht0. rewrite Ht.
    assert (Etime : (JS.or_default (Some t) 0 == t)%Q) by apply or_default_same.
    assert (Ht' : (0 <= JS.or_default (Some t) 0)%Q) by (rewrite Etime; exact Ht0).
    rewrite (Hright _ Ht'), Hleft, Etime.
    split; [ reflexivity |]. split; [ reflexivity |].
    split; split.
    + apply Q.min_glb; [ apply Q.le_max_l | exact Hd0 ].
    + apply Q.le_min_r.
    + apply Q.min_glb; [ exact Hd0 | qlra ].
    + apply Q.le_min_l.
  - intros Hnone. rewrite Hnone. simpl JS.or_default.
    rewrite (Hright 0%Q) by apply Qle_refl. rewrite Hleft.
    split; [ now rewrite Qplus_0_l |].
    rewrite (Q.max_l 0 (0 - skip)) by qlra.
    apply Q.min_l. exact Hd0.
Qed.

Lemma arrow_keys_stay_within_track_witness :
  ∃ right : Player,
    player (fst (KeyboardShortcuts.arrowRight 10 (JS.Returned 175%Q)
                   (performAll [Play false] Examples.loadedService)))
    = Some right
    ∧ (position right == 180)%Q.
Proof.
  destruct (arrow_keys_stay_within_track
              (performAll [Play false] Examples.loadedService)
              {| buffer := Some 180%Q; position := 0%Q; seekThrows := false |}
              180 10 (JS.Returned 175%Q) eq_refl eq_refl eq_refl)
    as (left & right & _ & Hright & Hplaying & _);
    [ reflexivity | vm_compute; discriminate |].
  exists right. split; [ exact Hright |].
  destruct (Hplaying 175%Q eq_refl) as (Hpos & _); [ vm_compute; discriminate |].
  rewrite Hpos. reflexivity.
Defined.

(** X18. Scrubbing the progress bar always lands inside the track, and a
    mouse-down seeks where a click at the same place does.  When the
    bar's duration [d >= 0] is the duration of the loaded buffer, the
    unclamped request [position * d] of a mouse-down is clamped by
    [seekTo] to the very position [clamp(position) * d] that a click
    requests, and that position lies in [0, d]. *)
Theorem scrub_lands_inside_track (s : State) (p : Player) (position d : Q) :
  player s = Some p → buffer p = Some d → (0 <= d)%Q →
  let clamped := AudioProgressBar.clampedPosition position in
  (0 <= clamped <= 1)%Q
  ∧ (0 <= clamped * d <= d)%Q
  ∧ (validPosition s (position * d) == clamped * d)%Q
  ∧ (validPosition s (clamped * d) == clamped * d)%Q
  ∧ (seekThrows p = false →
       ∃ afterDown afterClick : Player,
         player (fst (AudioProgressBar.handleMouseDown position (Some d) s))
         = Some afterDown
         ∧ player (fst (AudioProgressBar.handleClick position (Some d) s))
           = Some afterClick
         ∧ (AudioService.position afterDown == AudioService.position afterClick)%Q).
Proof.
  intros Hp Hb Hd clamped.
  assert (Hc : (0 <= clamped <= 1)%Q).
  { subst clamped. unfold AudioProgressBar.clampedPosition. split.
    - apply Q.le_max_l.
    - apply Q.max_lub; [ qlra | apply Q.le_min_l ]. }
  assert (Hcd : (0 <= clamped * d <= d)%Q) by (destruct Hc; split; Lqa.nra).
  assert (Hdown : (validPosition s (position * d) == clamped * d)%Q).
  { rewrite (validPosition_with_duration s p d) by assumption.
    now apply scrub_clamp. }
  assert (Hclick : (validPosition s (clamped * d) == clamped * d)%Q).
  { rewrite (validPosition_with_duration s p d) by assumption.
    destruct Hcd. now apply clamp_inside. }
  split; [ exact Hc |]. split; [ exact Hcd |].
  split; [ exact Hdown |]. split; [ exact Hclick |].
  intros Hthrow. eexists _, _.
  unfold AudioProgressBar.handleMouseDown, AudioProgressBar.handleClick.
  pose proof (seekTo_position s p (position * d) Hp Hthrow) as H1.
  pose proof (seekTo_position s p (clamped * d) Hp Hthrow) as H2.
  fold clamped.
  destruct (seekTo (position * d) s) as [s1 r1].
  destruct (seekTo (clamped * d) s) as [s2 r2]. simpl in *.
  split; [ exact H1 |]. split; [ exact H2 |].
  simpl. now rewrite Hdown, Hclick.
Qed.

Lemma scrub_lands_inside_track_witness :
  (validPosition Examples.loadedService ((3 # 2) * 180) == 180)%Q.
Proof.
  destruct (scrub_lands_inside_track Examples.loadedService
              {| buffer := Some 180%Q; position := 0%Q; seekThrows := false |}
              (3 # 2) 180 eq_refl eq_refl)
    as (_ & _ & Hdown & _); [ vm_compute; discriminate |].
  rewrite Hdown. reflexivity.
Defined.

(** ** Volume control *)

Section VolumeControlInvariant.
Local Open Scope R_scope.

Lemma inStep_mounted (s : State) :
  Spec.consistent s → Spec.inStep (VolumeControl.mounted s).
Proof.
  intros (_ & Hvol & gain & Hnode & _). unfold Spec.inStep, VolumeControl.mounted.
  simpl. unfold getVolume.
  repeat split; try rlra; try discriminate. rewrite Hnode. discriminate.
Qed.

Lemma setVolume_inside (volume : R) (s : State) :
  volumeNode s ≠ None → 0 <= volume <= 1 →
  currentVolume (fst (setVolume volume s)) = volume
  ∧ volumeNode (fst (setVolume volume s)) ≠ None.
Proof.
  intros Hnode Hv. destruct (setVolume_fields volume s Hnode) as (Hcv & Hvn & _).
  rewrite clampedVolume_inside in Hcv by exact Hv.
  split; [ exact Hcv |]. rewrite Hvn. discriminate.
Qed.

Lemma inStep_handle (event : VolumeControl.Event) (c : VolumeControl.Control) :
  match event with
  | VolumeControl.Slide newVolume => 0 <= newVolume <= 1
  | VolumeControl.ToggleMute => True
  end →
  Spec.inStep c → Spec.inStep (VolumeControl.handle event c).
Proof.
  intros Hevent (Hsync & Hvol & Hprev & Hmuted & Hnode).
  destruct event as [newVolume|]; simpl.
  - destruct (setVolume_inside newVolume (VolumeControl.service c) Hnode Hevent)
      as [Hcv Hnode'].
    unfold Spec.inStep, VolumeControl.handleVolumeChange. simpl.
    split; [ now rewrite Hcv |]. split; [ exact Hevent |]. split; [ exact Hprev |].
    split; [| exact Hnode' ].
    destruct (Rlt_dec 0 newVolume); [ discriminate |]. intros _. rlra.
  - unfold VolumeControl.toggleMute.
    destruct (VolumeControl.isMuted c) eqn:Em.
    + destruct (setVolume_inside (VolumeControl.previousVolume c)
                  (VolumeControl.service c) Hnode Hprev) as [Hcv Hnode'].
      unfold Spec.inStep. simpl.
      split; [ now rewrite Hcv |]. split; [ exact Hprev |]. split; [ exact Hprev |].
      split; [ discriminate | exact Hnode' ].
    + destruct (setVolume_inside 0 (VolumeControl.service c) Hnode) as [Hcv Hnode'];
        [ rlra |].
      unfold Spec.inStep. simpl.
      split; [ now rewrite Hcv |]. split; [ rlra |]. split; [ exact Hvol |].
      split; [ reflexivity | exact Hnode' ].
Qed.

End VolumeControlInvariant.

(** X19. The volume control stays in step with the service.  Mounted on
    a service in any state reached by public calls, and whatever the
    user does with the slider (values in [0, 1]) and the mute button,
    the control shows exactly the volume of the service, that volume is
    in [0, 1], and while the control says "muted" the volume is 0. *)
Theorem volume_control_in_step (made : JS.result Analyser) (calls : list Call)
    (events : list VolumeControl.Event) :
  Forall (λ event, match event with
                   | VolumeControl.Slide newVolume => (0 <= newVolume <= 1)%R
                   | VolumeControl.ToggleMute => True
                   end) events →
  let c := VolumeControl.handleAll events
             (VolumeControl.mounted (performAll calls (create made))) in
  VolumeControl.volume c = getVolume (VolumeControl.service c)
  ∧ (0 <= VolumeControl.volume c <= 1)%R
  ∧ (VolumeControl.isMuted c = true → VolumeControl.volume c = 0%R).
Proof.
  intros Hevents c.
  assert (Hstep : Spec.inStep c).
  { subst c. unfold VolumeControl.handleAll.
    generalize (inStep_mounted _ (consistent_performAll calls _ (consistent_create made))).
    generalize (VolumeControl.mounted (performAll calls (create made))).
    induction Hevents as [|event events Hevent _ IH]; intros c0 Hc0; [ exact Hc0 |].
    simpl. apply IH. now apply inStep_handle. }
  destruct Hstep as (Hsync & Hvol & _ & Hmuted & _).
  split; [ exact Hsync |]. split; [ exact Hvol | exact Hmuted ].
Qed.

Lemma volume_control_in_step_witness :
  VolumeControl.volume
    (VolumeControl.handleAll
       [VolumeControl.Slide (1 / 4); VolumeControl.ToggleMute]
       (VolumeControl.mounted Examples.freshService))
  = 0%R.
Proof.
  apply (volume_control_in_step (JS.Returned Examples.steadyAnalyser) []
           [VolumeControl.Slide (1 / 4); VolumeControl.ToggleMute]).
  - repeat constructor; rlra.
  - unfold VolumeControl.handleAll, VolumeControl.handle,
      VolumeControl.toggleMute, VolumeControl.handleVolumeChange. simpl.
    destruct (Rlt_dec 0 (1 / 4)); reflexivity.
Defined.

(** X20. Muting with the button is undone by the button.  On a control
    in step with the service and not muted, two presses bring back the
    volume shown and the volume of the service, with the gain of that
    volume. *)
Theorem mute_button_round_trip (c : VolumeControl.Control) :
  Spec.inStep c → VolumeControl.isMuted c = false →
  let muted := VolumeControl.toggleMute c in
  let restored := VolumeControl.toggleMute muted in
  VolumeControl.isMuted muted = true
  ∧ getVolume (VolumeControl.service muted) = 0%R
  ∧ VolumeControl.isMuted restored = false
  ∧ VolumeControl.volume restored = VolumeControl.volume c
  ∧ getVolume (VolumeControl.service restored) = VolumeControl.volume c
  ∧ volumeNode (VolumeControl.service restored)
    = Some (decibelValue (VolumeControl.volume c)).
Proof.
  intros (Hsync & Hvol & Hprev & _ & Hnode) Hm muted restored.
  subst restored muted. unfold VolumeControl.toggleMute. rewrite Hm. simpl.
  destruct (setVolume_inside 0 (VolumeControl.service c) Hnode) as [Hcv Hnode'];
    [ rlra |].
  destruct (setVolume_fields (VolumeControl.volume c)
              (fst (setVolume 0 (VolumeControl.service c))) Hnode')
    as (Hcv' & Hvn' & _).
  rewrite clampedVolume_inside in Hcv' by exact Hvol.
  unfold getVolume. repeat split; assumption.
Qed.

Lemma mute_button_round_trip_witness :
  getVolume
    (VolumeControl.service
       (VolumeControl.toggleMute
          (VolumeControl.toggleMute (VolumeControl.mounted Examples.freshService))))
  = 1%R.
Proof.
  apply (mute_button_round_trip (VolumeControl.mounted Examples.freshService));
    [| reflexivity ].
  apply inStep_mounted, consistent_create.
Defined.

(** ** Sensitivity slider *)

(** X21. The analyser window derived from the sensitivity slider is
    always a valid one.  For a slider value in 0..100 the lower bound
    lies in [-100, -30] dB and the upper bound in [-30, 0] dB, the lower
    stays at least 30 dB below the upper, and both rise with the slider. *)
Theorem analyser_window_valid (sensitivity higher : Q) :
  (0 <= sensitivity <= 100)%Q →
  (-100 <= VisualizationSettings.minDb sensitivity <= -30)%Q
  ∧ (-30 <= VisualizationSettings.maxDb sensitivity <= 0)%Q
  ∧ (VisualizationSettings.minDb sensitivity + 30
     <= VisualizationSettings.maxDb sensitivity)%Q
  ∧ (VisualizationSettings.minDb 0 == -100)%Q
  ∧ (VisualizationSettings.maxDb 100 == 0)%Q
  ∧ ((sensitivity <= higher)%Q →
       (VisualizationSettings.minDb sensitivity <= VisualizationSettings.minDb higher)%Q
       ∧ (VisualizationSettings.maxDb sensitivity <= VisualizationSettings.maxDb higher)%Q).
Proof.
  intros [H0 H1]. unfold VisualizationSettings.minDb, VisualizationSettings.maxDb.
  qconst.
  repeat split; try reflexivity; try qlra; intros; qlra.
Qed.

Lemma analyser_window_valid_witness :
  (VisualizationSettings.minDb 50 + 30 <= VisualizationSettings.maxDb 50)%Q.
Proof.
  destruct (analyser_window_valid 50 60) as (_ & _ & Hgap & _);
    [ split; vm_compute; discriminate | exact Hgap ].
Defined.

(** ** Settings store: presets and successive updates *)

Lemma find_after_misses {A} (f : A → bool) (older : list A) (x : A) :
  Forall (λ y, f y = false) older → f x = true → find f (older ++ [x]) = Some x.
Proof.
  intros Hmiss Hx. induction Hmiss as [|y older Hy _ IH]; simpl.
  - now rewrite Hx.
  - now rewrite Hy.
Qed.

Lemma find_all_miss {A} (f : A → bool) (l : list A) :
  Forall (λ y, f y = false) l → find f l = None.
Proof.
  intros Hmiss. induction Hmiss as [|y l Hy _ IH]; simpl; [ reflexivity |].
  now rewrite Hy.
Qed.

(** X22. A preset gives back the settings it was saved from.  If no
    earlier preset carries the id made from the clock, then after
    [savePreset] and any later [updateSettings], loading that id restores
    exactly the settings held when the preset was saved, and the list of
    presets is not touched by updating or loading.  Loading an id that no
    preset carries changes nothing. *)
Theorem preset_round_trip (p : Provider) (name : string) (now : Z)
    (updates : gmap string value) (unknown : string) :
  let id := "preset-" +:+ pretty now in
  let saved := savePreset name now p in
  (Forall (λ q, preset_id q ≠ id) (presets p) →
     settings (loadPreset id (updateSettings updates saved)) = settings p
     ∧ presets (loadPreset id (updateSettings updates saved)) = presets saved)
  ∧ (Forall (λ q, preset_id q ≠ unknown) (presets p) → loadPreset unknown p = p).
Proof.
  intros id saved. split.
  - intros Hfresh.
    assert (Hfind : find (λ q, bool_decide (preset_id q = id))
                      (presets (updateSettings updates saved))
                    = Some {| preset_id := id; preset_name := name;
                              preset_settings := settings p |}).
    { subst saved. simpl. rewrite spread_empty. apply find_after_misses.
      - eapply Forall_impl; [ exact Hfresh |]. intros q Hq. simpl.
        now apply bool_decide_eq_false.
      - now apply bool_decide_eq_true. }
    unfold loadPreset. rewrite Hfind. split; reflexivity.
  - intros Hmiss. unfold loadPreset. rewrite find_all_miss; [ reflexivity |].
    eapply Forall_impl; [ exact Hmiss |]. intros q Hq. simpl.
    now apply bool_decide_eq_false.
Qed.

Lemma preset_round_trip_witness :
  settings (loadPreset "preset-1700000000000"
              (updateSettings {[ "sensitivity" := VNumber 50 ]}
                 (savePreset "quiet" 1700000000000 initial)))
  = settings initial.
Proof.
  apply (preset_round_trip initial "quiet" 1700000000000
           {[ "sensitivity" := VNumber 50 ]} "").
  constructor.
Defined.

(** X23. Successive updates of the settings compose: two updates in a
    row amount to one update with the later values laid over the earlier
    ones, an empty update changes nothing, repeating an update changes
    nothing more, and two updates that name different properties can be
    applied in either order. *)
Theorem updateSettings_compose (first second : gmap string value) (p : Provider) :
  updateSettings second (updateSettings first p) = updateSettings (second ∪ first) p
  ∧ updateSettings ∅ p = p
  ∧ updateSettings first (updateSettings first p) = updateSettings first p
  ∧ (first ##ₘ second →
       updateSettings second (updateSettings first p)
       = updateSettings first (updateSettings second p)).
Proof.
  unfold updateSettings, spread. simpl. repeat split.
  - now rewrite (assoc_L (∪)).
  - rewrite (left_id_L ∅ (∪)). now destruct p.
  - now rewrite (assoc_L (∪)), (idemp_L (∪)).
  - intros Hdisjoint. rewrite !(assoc_L (∪)).
    now rewrite (map_union_comm second first) by now symmetry.
Qed.

Lemma updateSettings_compose_witness :
  updateSettings {[ "frameRate" := VNumber 30 ]}
    (updateSettings {[ "sensitivity" := VNumber 50 ]} initial)
  = updateSettings {[ "sensitivity" := VNumber 50 ]}
      (updateSettings {[ "frameRate" := VNumber 30 ]} initial).
Proof.
  apply (updateSettings_compose {[ "sensitivity" := VNumber 50 ]}
           {[ "frameRate" := VNumber 30 ]} initial).
  apply map_disjoint_singleton_l. now apply lookup_singleton_ne.
Defined.

(** ** Canvas pipeline: bytes *)

Section Bytes.
Local Open Scope Q_scope.

Lemma Qfloor_unique (x : Q) (z : Z) :
  inject_Z z <= x → x < inject_Z (z + 1) → Qfloor x = z.
Proof.
  intros Hlo Hhi.
  pose proof (Qfloor_resp_le _ _ Hlo) as H1. rewrite Qfloor_Z in H1.
  pose proof (Qfloor_below x (z + 1) Hhi) as H2. lia.
Qed.

Lemma Qfloor_range (x : Q) (lo hi : Z) :
  inject_Z lo <= x → x <= inject_Z hi → (lo ≤ Qfloor x ≤ hi)%Z.
Proof.
  intros Hlo Hhi.
  pose proof (Qfloor_resp_le _ _ Hlo) as H1. rewrite Qfloor_Z in H1.
  pose proof (Qfloor_resp_le _ _ Hhi) as H2. rewrite Qfloor_Z in H2. lia.
Qed.

Lemma toUint8_of_byte_range (x : Q) :
  0 <= x → x <= 255 → VisualizationCanvas.toUint8 x = Qfloor x.
Proof.
  intros H0 H255.
  pose proof (Qfloor_range x 0 255 H0 H255) as Hr.
  unfold VisualizationCanvas.toUint8. destruct x as [n d]. simpl in *.
  assert (Hn : (0 ≤ n)%Z) by (unfold Qle in H0; simpl in H0; lia).
  rewrite Z.quot_div_nonneg by lia.
  apply Z.mod_small. lia.
Qed.

Lemma toUint8_of_byte (byte : Z) :
  (0 ≤ byte ≤ 255)%Z → VisualizationCanvas.toUint8 (inject_Z byte) = byte.
Proof.
  intros Hb. rewrite toUint8_of_byte_range.
  - apply Qfloor_Z.
  - apply (inject_Z_le 0). lia.
  - apply (inject_Z_le byte 255). lia.
Qed.

Lemma clamp_to_byte_range (x : Q) :
  0 <= Qmin 255 (Qmax 0 x) ∧ Qmin 255 (Qmax 0 x) <= 255.
Proof.
  split; [| apply Q.le_min_l ].
  apply Q.min_glb; [ vm_compute; discriminate | apply Q.le_max_l ].
Qed.

Lemma toByte_floor (value : Q) :
  VisualizationCanvas.toByte value
  = Qfloor (Qmin 255 (Qmax 0 ((value + 1) * (255 # 2)))).
Proof.
  unfold VisualizationCanvas.toByte.
  destruct (clamp_to_byte_range ((value + 1) * (255 # 2))).
  now apply toUint8_of_byte_range.
Qed.

End Bytes.

(** X24. The conversion of analyser values to bytes never wraps around:
    the stored byte is the floor of the value scaled from [-1, 1] to
    [0, 255] and clamped, it lies in 0..255 and grows with the value.
    Everything at or below -1 becomes 0, in particular every decibel
    reading of the FFT buffer at or below -1 dB, and everything from 1
    upwards becomes 255.  The copy loop keeps the length of both byte
    buffers and leaves bytes in them. *)
Theorem byte_conversion_clamped (value other : Q) :
  VisualizationCanvas.toByte value
  = Qfloor (Qmin 255 (Qmax 0 ((value + 1) * (255 # 2))))
  ∧ (0 ≤ VisualizationCanvas.toByte value ≤ 255)%Z
  ∧ ((value <= -1)%Q → VisualizationCanvas.toByte value = 0%Z)
  ∧ ((1 <= value)%Q → VisualizationCanvas.toByte value = 255%Z)
  ∧ ((value <= other)%Q →
       (VisualizationCanvas.toByte value ≤ VisualizationCanvas.toByte other)%Z)
  ∧ (∀ (buffer : list Z) (freqData waveData : list Q),
       length (VisualizationCanvas.copyFrequency buffer freqData) = length buffer
       ∧ length (VisualizationCanvas.copyTime buffer freqData waveData) = length buffer
       ∧ (Forall (λ byte, (0 ≤ byte ≤ 255)%Z) buffer →
            Forall (λ byte, (0 ≤ byte ≤ 255)%Z)
                   (VisualizationCanvas.copyFrequency buffer freqData)
            ∧ Forall (λ byte, (0 ≤ byte ≤ 255)%Z)
                     (VisualizationCanvas.copyTime buffer freqData waveData))).
Proof.
  assert (Hrange : ∀ v, (0 ≤ VisualizationCanvas.toByte v ≤ 255)%Z).
  { intros v. rewrite toByte_floor.
    destruct (clamp_to_byte_range ((v + 1) * (255 # 2))).
    now apply Qfloor_range. }
  split; [ apply toByte_floor |].
  split; [ apply Hrange |].
  rewrite !toByte_floor.
  split; [| split; [| split ]]; [ | | | clear value other;
    intros buffer freqData waveData;
    unfold VisualizationCanvas.copyFrequency, VisualizationCanvas.copyTime;
    split; [ apply length_imap |]; split; [ apply length_imap |];
    intros Hbuffer; rewrite Forall_lookup in Hbuffer;
    split; apply Forall_lookup; intros i byte; rewrite list_lookup_imap;
    destruct (buffer !! i) as [old|] eqn:Eold; simpl; try discriminate;
    intros [= <-]; pose proof (Hbuffer i old Eold);
    destruct (freqData !! i); try assumption; [ apply Hrange |];
    destruct (waveData !! i); [ apply Hrange | lia ] ].
  - intros Hv.
    assert (E : (Qmin 255 (Qmax 0 ((value + 1) * (255 # 2))) == 0)%Q).
    { rewrite (Q.max_l 0) by qlra. apply Q.min_r. vm_compute. discriminate. }
    now rewrite E.
  - intros Hv.
    assert (E : (Qmin 255 (Qmax 0 ((value + 1) * (255 # 2))) == 255)%Q).
    { rewrite (Q.max_r 0) by qlra. apply Q.min_l. qlra. }
    now rewrite E.
  - intros Hle. apply Qfloor_resp_le.
    apply Q.min_le_compat_l, Q.max_le_compat_l. qlra.
Qed.

Lemma byte_conversion_clamped_witness :
  VisualizationCanvas.toByte (-40) = 0%Z.
Proof.
  apply (byte_conversion_clamped (-40) 0). vm_compute. discriminate.
Defined.

(** X25. [applySensitivity] keeps the length of the buffer and produces
    bytes.  On a buffer of bytes a sensitivity of 1 gives the buffer
    back, a sensitivity of 0 silences it, and a larger sensitivity never
    gives a smaller byte. *)
Theorem applySensitivity_bytes (data : list Z) (sensitivity higher : Q) :
  length (VisualizationCanvas.applySensitivity data sensitivity) = length data
  ∧ Forall (λ byte, (0 ≤ byte ≤ 255)%Z)
           (VisualizationCanvas.applySensitivity data sensitivity)
  ∧ (Forall (λ byte, (0 ≤ byte ≤ 255)%Z) data →
       VisualizationCanvas.applySensitivity data 1 = data
       ∧ VisualizationCanvas.applySensitivity data 0 = (λ _, 0%Z) <$> data
       ∧ ((sensitivity <= higher)%Q →
            Forall2 Z.le (VisualizationCanvas.applySensitivity data sensitivity)
                         (VisualizationCanvas.applySensitivity data higher))).
Proof.
  unfold VisualizationCanvas.applySensitivity.
  split; [ apply length_fmap |]. split.
  - apply Forall_fmap, Forall_forall. intros byte _. unfold compose. cbv beta.
    rewrite toUint8_of_byte by lia. lia.
  - intros Hbytes. split; [| split ].
    + rewrite <- (list_fmap_id data) at 2. apply Forall_fmap_ext_1.
      eapply Forall_impl; [ exact Hbytes |]. intros byte Hb. cbv beta in *.
      rewrite (Qfloor_comp _ (inject_Z byte)) by apply Qmult_1_r.
      rewrite Qfloor_Z, toUint8_of_byte by lia. unfold Datatypes.id. lia.
    + apply Forall_fmap_ext_1.
      eapply Forall_impl; [ exact Hbytes |]. intros byte Hb. cbv beta in *.
      rewrite (Qfloor_comp _ 0) by apply Qmult_0_r. reflexivity.
    + intros Hle. apply Forall2_fmap, Forall_Forall2_diag.
      eapply Forall_impl; [ exact Hbytes |]. intros byte Hb. cbv beta in *.
      rewrite !toUint8_of_byte by lia.
      assert (Hfloor : (Qfloor (inject_Z byte * sensitivity)
                        ≤ Qfloor (inject_Z byte * higher))%Z).
      { apply Qfloor_resp_le.
        assert (0 <= inject_Z byte)%Q by (apply (inject_Z_le 0); lia).
        Lqa.nra. }
      lia.
Qed.

Lemma applySensitivity_bytes_witness :
  VisualizationCanvas.applySensitivity [0; 17; 255]%Z 1 = [0; 17; 255]%Z.
Proof.
  apply (applySensitivity_bytes [0; 17; 255]%Z 1 1).
  repeat constructor; lia.
Defined.

(** ** Canvas pipeline: asteroids, colours and waveform *)

Section CanvasGeometry.
Local Open Scope Q_scope.

Lemma gt_false_iff (a b : Q) : JS.gt a b = false ↔ a <= b.
Proof.
  unfold JS.gt. rewrite negb_false_iff. apply Qle_bool_iff.
Qed.

Lemma intensity_unit (byte : Z) :
  (0 ≤ byte ≤ 255)%Z →
  0 <= VisualizationCanvas.intensity byte ∧ VisualizationCanvas.intensity byte <= 1.
Proof.
  intros [H0 H1]. unfold VisualizationCanvas.intensity, Qdiv.
  change (/ 255) with (1 # 255).
  pose proof (inject_Z_le 0 byte H0) as Hlo.
  pose proof (inject_Z_le byte 255 H1) as Hhi.
  change (inject_Z 0) with 0 in Hlo. change (inject_Z 255) with 255 in Hhi.
  split; qlra.
Qed.

End CanvasGeometry.

(** X26. Asteroids wrap around the screen and are never lost.  For a
    size and a screen extent that are not negative, a coordinate that has
    left by more than the size on one side re-enters at the far edge on
    the other side, a coordinate within [-size, extent + size] is kept,
    and the result always lies in [-size, extent + size]. *)
Theorem asteroid_wraps_around_screen (coordinate size extent : Q) :
  (0 <= size)%Q → (0 <= extent)%Q →
  let wrapped := VisualizationCanvas.wrap coordinate size extent in
  (- size <= wrapped <= extent + size)%Q
  ∧ ((coordinate < - size)%Q → wrapped = (extent + size)%Q)
  ∧ ((extent + size < coordinate)%Q → wrapped = (- size)%Q)
  ∧ ((- size <= coordinate <= extent + size)%Q → wrapped = coordinate).
Proof.
  intros Hsize Hextent wrapped. subst wrapped. unfold VisualizationCanvas.wrap.
  destruct (JS.gt (- size) coordinate) eqn:Eleft.
  - apply gt_true_iff in Eleft.
    assert (Eright : JS.gt (extent + size) (extent + size) = false)
      by (apply gt_false_iff, Qle_refl).
    rewrite Eright.
    split; [ split; qlra |]. split; [ reflexivity |].
    split; intros; exfalso; qlra.
  - apply gt_false_iff in Eleft.
    destruct (JS.gt coordinate (extent + size)) eqn:Eright.
    + apply gt_true_iff in Eright.
      split; [ split; qlra |]. split; [ intros; exfalso; qlra |].
      split; [ reflexivity | intros; exfalso; qlra ].
    + apply gt_false_iff in Eright.
      split; [ split; qlra |]. split; [ intros; exfalso; qlra |].
      split; [ intros; exfalso; qlra | reflexivity ].
Qed.

Lemma asteroid_wraps_around_screen_witness :
  VisualizationCanvas.wrap (-12) 5 800 = (800 + 5)%Q.
Proof.
  destruct (asteroid_wraps_around_screen (-12) 5 800) as (_ & Hleft & _);
    [ vm_compute; discriminate | vm_compute; discriminate |].
  apply Hleft. reflexivity.
Defined.

(** X27. In the particle and asteroid modes of the canvas the colour
    index is [floor(intensity * (colors.length - 1))], the formula the
    specification gives.  For an intensity in [0, 1], as a byte divided
    by 255 is, it always names a colour of a non-empty scheme, and with
    two colours or more the last colour is reached at full intensity
    only. *)
Theorem canvas_color_index_valid (intensity : Q) (byte : Z) (colors : list string) :
  colors ≠ [] → (0 <= intensity <= 1)%Q →
  VisualizationCanvas.colorIndex intensity colors = Spec.colorIndex intensity colors
  ∧ (0 ≤ VisualizationCanvas.colorIndex intensity colors
       ≤ Z.of_nat (length colors) - 1)%Z
  ∧ ((intensity < 1)%Q → (2 ≤ length colors)%nat →
       (VisualizationCanvas.colorIndex intensity colors
        < Z.of_nat (length colors) - 1)%Z)
  ∧ ((0 ≤ byte ≤ 255)%Z → (0 <= VisualizationCanvas.intensity byte <= 1)%Q).
Proof.
  intros Hne [H0 H1].
  pose proof (nonempty_length colors Hne) as Hlen.
  set (last := (Z.of_nat (length colors) - 1)%Z) in *.
  assert (Hlast : (0 <= inject_Z last)%Q) by (apply (inject_Z_le 0); lia).
  split; [ reflexivity |]. split; [| split ].
  - unfold VisualizationCanvas.colorIndex. fold last.
    apply Qfloor_range.
    + change (inject_Z 0) with 0%Q. Lqa.nra.
    + Lqa.nra.
  - intros Hlt Hmany.
    assert (Hpos : (1 <= inject_Z last)%Q) by (apply (inject_Z_le 1); lia).
    unfold VisualizationCanvas.colorIndex. fold last.
    assert (Hfl : (Qfloor (intensity * inject_Z last) ≤ last - 1)%Z)
      by (apply Qfloor_below; Lqa.nra).
    lia.
  - intros Hbyte. now apply intensity_unit.
Qed.

Lemma canvas_color_index_valid_witness :
  (0 ≤ VisualizationCanvas.colorIndex (VisualizationCanvas.intensity 255)
         ["#ff0000"; "#00ff00"; "#0000ff"] ≤ 2)%Z.
Proof.
  destruct (canvas_color_index_valid (VisualizationCanvas.intensity 255) 255
              ["#ff0000"; "#00ff00"; "#0000ff"]) as (_ & Hrange & _);
    [ discriminate | split; vm_compute; discriminate | exact Hrange ].
Defined.

(** X28. The waveform of the canvas stays on the canvas.  For a byte
    sample, an amplification in [0, 2] and a height that is not
    negative, the point is drawn at a y in [0, height], and the silent
    sample 128 is drawn on the centre line whatever the amplification. *)
Theorem canvas_waveform_within_canvas (height amplification : Q) (byte : Z) :
  (0 ≤ byte ≤ 255)%Z → (0 <= height)%Q → (0 <= amplification <= 2)%Q →
  (0 <= VisualizationCanvas.waveformY height amplification byte <= height)%Q
  ∧ (VisualizationCanvas.waveformY height amplification 128 == height / 2)%Q.
Proof.
  intros [Hb0 Hb1] Hh [Ha0 Ha2].
  unfold VisualizationCanvas.waveformY.
  split; [| change (inject_Z 128 / 128)%Q with (128 # 128)%Q; field ].
  pose proof (inject_Z_le 0 byte Hb0) as Hlo.
  pose proof (inject_Z_le byte 255 Hb1) as Hhi.
  change (inject_Z 0) with 0%Q in Hlo. change (inject_Z 255) with 255%Q in Hhi.
  unfold Qdiv. change (/ 128)%Q with (1 # 128)%Q. change (/ 2)%Q with (1 # 2)%Q.
  set (value := (inject_Z byte * (1 # 128) - 1)%Q).
  assert (Hv : (-1 <= value <= 1)%Q) by (subst value; split; qlra).
  set (t := (value * amplification)%Q).
  assert (Ht : (-2 <= t <= 2)%Q) by (subst t; destruct Hv; split; Lqa.nra).
  destruct Ht. split; Lqa.nra.
Qed.

Lemma canvas_waveform_within_canvas_witness :
  (0 <= VisualizationCanvas.waveformY 720 (3 # 2) 255 <= 720)%Q.
Proof.
  apply (canvas_waveform_within_canvas 720 (3 # 2) 255);
    [ lia | vm_compute; discriminate | split; vm_compute; discriminate ].
Defined.

Section AsteroidBands.
Local Open Scope Q_scope.

Lemma Qfloor_succ (x : Q) : Qfloor (x + 1) = (Qfloor x + 1)%Z.
Proof.
  apply Qfloor_unique.
  - rewrite inject_Z_plus. pose proof (Qfloor_le x). change (inject_Z 1) with 1. qlra.
  - pose proof (Qlt_floor x) as H. rewrite !inject_Z_plus in *.
    change (inject_Z 1) with 1 in *. qlra.
Qed.

Lemma bandWidth_at_least_one (freqData : list Z) :
  (5 ≤ length freqData)%nat →
  1 <= inject_Z (Z.of_nat (length freqData)) / inject_Z VisualizationCanvas.numBands.
Proof.
  intros Hlen. unfold VisualizationCanvas.numBands.
  apply Qle_shift_div_l; [ reflexivity |].
  rewrite Qmult_1_l. apply (inject_Z_le 5). lia.
Qed.

Lemma startIdx_zero (freqData : list Z) : VisualizationCanvas.startIdx freqData 0 = 0%Z.
Proof.
  unfold VisualizationCanvas.startIdx.
  rewrite (Qfloor_comp _ 0) by (change (inject_Z 0) with 0; ring). reflexivity.
Qed.

Lemma endIdx_last (freqData : list Z) :
  VisualizationCanvas.endIdx freqData 4 = Z.of_nat (length freqData).
Proof.
  unfold VisualizationCanvas.endIdx, VisualizationCanvas.numBands.
  rewrite (Qfloor_comp _ (inject_Z (Z.of_nat (length freqData)))).
  - apply Qfloor_Z.
  - change (inject_Z (4 + 1)) with 5. change (inject_Z 5) with 5. field.
Qed.

Lemma startIdx_step (freqData : list Z) (band : Z) :
  (5 ≤ length freqData)%nat →
  (VisualizationCanvas.startIdx freqData band + 1
   ≤ VisualizationCanvas.startIdx freqData (band + 1))%Z.
Proof.
  intros Hlen. pose proof (bandWidth_at_least_one freqData Hlen) as Hw.
  unfold VisualizationCanvas.startIdx. rewrite <- Qfloor_succ.
  apply Qfloor_resp_le. rewrite inject_Z_plus. change (inject_Z 1) with 1.
  set (w := inject_Z (Z.of_nat (length freqData)) / inject_Z VisualizationCanvas.numBands) in *.
  Lqa.nra.
Qed.

Lemma startIdx_monotone (freqData : list Z) (band band' : Z) :
  (band ≤ band')%Z →
  (VisualizationCanvas.startIdx freqData band
   ≤ VisualizationCanvas.startIdx freqData band')%Z.
Proof.
  intros Hb. unfold VisualizationCanvas.startIdx. apply Qfloor_resp_le.
  assert (Hw : 0 <= inject_Z (Z.of_nat (length freqData))
                    / inject_Z VisualizationCanvas.numBands).
  { apply Qle_shift_div_l; [ reflexivity |]. rewrite Qmult_0_l.
    apply (inject_Z_le 0). lia. }
  pose proof (inject_Z_le band band' Hb). Lqa.nra.
Qed.

Lemma sum_of_bytes (freqData : list Z) (indices : list nat) (acc : Z) :
  Forall (λ byte, (0 ≤ byte ≤ 255)%Z) freqData →
  Forall (λ i, (i < length freqData)%nat) indices →
  ∃ sum : Z,
    foldl (λ (bandSum : option Z) (i : nat),
             sum ← bandSum; byte ← freqData !! i; Some (sum + byte)%Z)
          (Some acc) indices = Some sum
    ∧ (acc ≤ sum ≤ acc + 255 * Z.of_nat (length indices))%Z.
Proof.
  intros Hbytes Hin. revert acc.
  induction Hin as [|i indices Hi _ IH]; intros acc.
  - exists acc. split; [ reflexivity | simpl; lia ].
  - destruct (lookup_lt_is_Some_2 freqData i Hi) as [byte Hbyte].
    assert (Hb : (0 ≤ byte ≤ 255)%Z).
    { rewrite Forall_forall in Hbytes. apply Hbytes.
      now apply list_elem_of_lookup_2 in Hbyte. }
    destruct (IH (acc + byte)%Z) as (sum & Hsum & Hrange).
    exists sum. split.
    + simpl. rewrite Hbyte. simpl. exact Hsum.
    + simpl length. lia.
Qed.

End AsteroidBands.

(** X29. The five bands of the asteroid modes cut the byte buffer into
    consecutive ranges that cover it exactly: the first band starts at
    0, each band ends where the next one starts and the last ends at the
    length.  On a buffer of at least five bytes every band is non-empty,
    reads only entries that exist, and its value, the mean byte divided
    by 255, lies in [0, 1]. *)
Theorem asteroid_bands_cover_buffer (freqData : list Z) (band : Z) :
  (5 ≤ length freqData)%nat →
  Forall (λ byte, (0 ≤ byte ≤ 255)%Z) freqData →
  (0 ≤ band ≤ 4)%Z →
  VisualizationCanvas.startIdx freqData 0 = 0%Z
  ∧ VisualizationCanvas.endIdx freqData 4 = Z.of_nat (length freqData)
  ∧ VisualizationCanvas.endIdx freqData band
    = VisualizationCanvas.startIdx freqData (band + 1)
  ∧ (0 ≤ VisualizationCanvas.startIdx freqData band
       < VisualizationCanvas.endIdx freqData band)%Z
  ∧ (VisualizationCanvas.endIdx freqData band ≤ Z.of_nat (length freqData))%Z
  ∧ ∃ value : Q,
      VisualizationCanvas.bandValue freqData band = Some value
      ∧ (0 <= value <= 1)%Q.
Proof.
  intros Hlen Hbytes [Hb0 Hb4].
  pose proof (startIdx_zero freqData) as Hfirst.
  pose proof (endIdx_last freqData) as Hlast.
  assert (Hnext : VisualizationCanvas.endIdx freqData band
                  = VisualizationCanvas.startIdx freqData (band + 1)) by reflexivity.
  assert (Hstart : (0 ≤ VisualizationCanvas.startIdx freqData band)%Z)
    by (rewrite <- Hfirst; now apply startIdx_monotone).
  assert (Hstep : (VisualizationCanvas.startIdx freqData band
                   < VisualizationCanvas.endIdx freqData band)%Z)
    by (rewrite Hnext; pose proof (startIdx_step freqData band Hlen); lia).
  assert (Hend : (VisualizationCanvas.endIdx freqData band
                  ≤ Z.of_nat (length freqData))%Z).
  { rewrite <- Hlast, Hnext.
    change (VisualizationCanvas.endIdx freqData 4)
      with (VisualizationCanvas.startIdx freqData (4 + 1)).
    apply startIdx_monotone. lia. }
  split; [ exact Hfirst |]. split; [ exact Hlast |]. split; [ exact Hnext |].
  split; [ split; assumption |]. split; [ exact Hend |].
  unfold VisualizationCanvas.bandValue, VisualizationCanvas.bandSum.
  set (start := VisualizationCanvas.startIdx freqData band) in *.
  set (stop := VisualizationCanvas.endIdx freqData band) in *.
  destruct (sum_of_bytes freqData (seq (Z.to_nat start) (Z.to_nat (stop - start))) 0
              Hbytes) as (sum & Hsum & Hrange).
  { apply Forall_forall. intros i Hi. apply elem_of_seq in Hi. lia. }
  rewrite Hsum. simpl.
  destruct (Z.eqb_spec (stop - start) 0) as [E|_]; [ lia |].
  eexists. split; [ reflexivity |].
  rewrite length_seq in Hrange.
  assert (Hw : (0 < inject_Z (stop - start))%Q) by (apply (inject_Z_lt 0); lia).
  assert (Hs0 : (0 <= inject_Z sum)%Q) by (apply (inject_Z_le 0); lia).
  assert (Hs1 : (inject_Z sum <= 255 * inject_Z (stop - start))%Q).
  { change 255%Q with (inject_Z 255). rewrite <- inject_Z_mult.
    apply inject_Z_le. lia. }
  assert (Hmean : (0 <= inject_Z sum / inject_Z (stop - start) <= 255)%Q).
  { split.
    - apply Qle_shift_div_l; [ exact Hw |]. now rewrite Qmult_0_l.
    - apply Qle_shift_div_r; [ exact Hw | exact Hs1 ]. }
  destruct Hmean. unfold Qdiv at 1 3. change (/ 255)%Q with (1 # 255)%Q.
  split; qlra.
Qed.

Lemma asteroid_bands_cover_buffer_witness :
  ∃ value : Q,
    VisualizationCanvas.bandValue [255; 0; 255; 0; 255; 0; 255]%Z 2 = Some value
    ∧ (0 <= value <= 1)%Q.
Proof.
  apply (asteroid_bands_cover_buffer [255; 0; 255; 0; 255; 0; 255]%Z 2);
    [ simpl; lia | repeat constructor; lia | lia ].
Defined.

(** ** Time display *)

Section TimeDisplay.
Local Open Scope Q_scope.

Lemma truncate_nonneg (q : Q) :
  0 <= q → Z.quot (Qnum q) (Zpos (Qden q)) = Qfloor q.
Proof.
  intros Hq. destruct q as [n d]. simpl.
  assert (0 ≤ n)%Z by (unfold Qle in Hq; simpl in Hq; lia).
  apply Z.quot_div_nonneg; lia.
Qed.

Lemma sixtieth_nonneg (seconds : Q) : 0 <= seconds → 0 <= seconds / 60.
Proof. intros H. qconst. change (/ 60) with (1 # 60). qlra. Qed.

Lemma floor_of_minutes (seconds : Q) :
  0 <= seconds → Qfloor (seconds / 60) = (Qfloor seconds / 60)%Z.
Proof.
  intros Hs. apply Qfloor_unique.
  - pose proof (Qfloor_le seconds) as Hf.
    pose proof (Z.mul_div_le (Qfloor seconds) 60 ltac:(lia)) as Hz.
    apply inject_Z_le in Hz. rewrite inject_Z_mult in Hz.
    change (inject_Z 60) with 60 in Hz.
    unfold Qdiv. change (/ 60) with (1 # 60). qlra.
  - pose proof (Qlt_floor seconds) as Hf.
    assert (Hz : (Qfloor seconds + 1 ≤ 60 * (Qfloor seconds / 60 + 1))%Z).
    { pose proof (Z.mod_pos_bound (Qfloor seconds) 60 ltac:(lia)).
      pose proof (Z.div_mod (Qfloor seconds) 60 ltac:(lia)). lia. }
    apply inject_Z_le in Hz. rewrite inject_Z_mult in Hz.
    change (inject_Z 60) with 60 in Hz.
    unfold Qdiv. change (/ 60) with (1 # 60). qlra.
Qed.

Lemma floor_of_remainder (seconds : Q) :
  0 <= seconds → Qfloor (JS.remainder seconds 60) = (Qfloor seconds mod 60)%Z.
Proof.
  intros Hs. unfold JS.remainder.
  rewrite truncate_nonneg by now apply sixtieth_nonneg.
  rewrite floor_of_minutes by exact Hs.
  rewrite Z.mod_eq by lia.
  set (minutes := (Qfloor seconds / 60)%Z).
  apply Qfloor_unique.
  - pose proof (Qfloor_le seconds) as Hf.
    unfold Z.sub. rewrite inject_Z_plus, inject_Z_opp, inject_Z_mult.
    change (inject_Z 60) with 60. qlra.
  - pose proof (Qlt_floor seconds) as Hf.
    unfold Z.sub. rewrite !inject_Z_plus, inject_Z_opp, inject_Z_mult in *.
    change (inject_Z 60) with 60. change (inject_Z 1) with 1 in *. qlra.
Qed.

Lemma two_digits_table :
  forallb (λ n, String.eqb
                  (AudioProgressBar.padStart2 (pretty (Z.of_nat n)))
                  (if (Z.of_nat n <? 10)%Z then "0" +:+ pretty (Z.of_nat n)
                   else pretty (Z.of_nat n)))
          (seq 0 60) = true.
Proof. vm_compute. reflexivity. Qed.

Lemma two_digits (secs : Z) :
  (0 ≤ secs < 60)%Z →
  AudioProgressBar.padStart2 (pretty secs)
  = if (secs <? 10)%Z then "0" +:+ pretty secs else pretty secs.
Proof.
  intros Hsecs. pose proof two_digits_table as Htable.
  rewrite forallb_forall in Htable.
  specialize (Htable (Z.to_nat secs)).
  rewrite Z2Nat.id in Htable by lia.
  apply String.eqb_eq, Htable, in_seq. lia.
Qed.

End TimeDisplay.

(** X30. The time display shows whole minutes and seconds.  For a time
    that is not negative and below [2^53] seconds, with [whole] its
    floor, both the progress bar and the bar drawn on the canvas print
    [whole / 60], a colon, and [whole mod 60] on two digits; the two
    displays agree, and the minutes printed are a whole number below
    [2^53], which is printed digit by digit. *)
Theorem time_display_minutes_seconds (seconds : Q) :
  (0 <= seconds)%Q → (seconds < inject_Z (2 ^ 53))%Q →
  let whole := Qfloor seconds in
  let secs := (whole mod 60)%Z in
  AudioProgressBar.formatTime (Some seconds)
  = pretty (whole / 60)%Z +:+ ":"
    +:+ (if (secs <? 10)%Z then "0" +:+ pretty secs else pretty secs)
  ∧ VisualizationCanvas.formatTime seconds = AudioProgressBar.formatTime (Some seconds)
  ∧ (0 ≤ secs ≤ 59)%Z
  ∧ (60 * (whole / 60) + secs = whole)%Z
  ∧ (0 ≤ whole / 60 < 2 ^ 53)%Z.
Proof.
  intros Hs Hsafe whole secs.
  assert (Hsecs : (0 ≤ secs < 60)%Z) by (apply Z.mod_pos_bound; lia).
  assert (Hwhole : (0 ≤ whole < 2 ^ 53)%Z).
  { split.
    - change 0%Z with (Qfloor 0). now apply Qfloor_resp_le.
    - apply inject_Z_lt_inv. eapply Qle_lt_trans; [ apply Qfloor_le | exact Hsafe ]. }
  unfold AudioProgressBar.formatTime, VisualizationCanvas.formatTime.
  rewrite floor_of_minutes, floor_of_remainder by exact Hs.
  fold whole. fold secs. rewrite two_digits by exact Hsecs.
  split; [ reflexivity |]. split; [ reflexivity |]. split; [ lia |].
  pose proof (Z.div_mod whole 60 ltac:(lia)) as Hdm.
  split; [ subst secs; lia |].
  split; [ apply Z.div_pos; lia |].
  apply Z.div_lt_upper_bound; lia.
Qed.

Lemma time_display_minutes_seconds_witness :
  AudioProgressBar.formatTime (Some (1507 # 10)%Q) = "2:30".
Proof.
  destruct (time_display_minutes_seconds (1507 # 10)) as (Hformat & _);
    [ vm_compute; discriminate | vm_compute; reflexivity |].
  rewrite Hformat. vm_compute. reflexivity.
Defined.
